(** * RTMP Stream Viewer: capture worker metrics and handshake listener

    Shallow embedding of [src/rtmp_stream_viewer.py]:
    - [VideoThread.__init__], [VideoThread.run] and [VideoThread.stop]
      (the capture worker with its FPS moving average and bitrate window);
    - [handle_client] (the fixed-size RTMP handshake).

    Python [float] values are idealised as exact rationals ([Q]); a float
    division by zero raises [ZeroDivisionError] exactly when the divisor is
    zero, which the model keeps.  Python [int] values are [Z].  A value the
    worker emits is stated as the formula the code evaluates; no bound or
    equality that the rounding of floats could break is derived from it. *)

From Stdlib Require Import String Ascii List ZArith QArith Qround Qfield Bool Lia.
From Stdlib.Strings Require Import Byte.
From Stdlib Require Import DecimalString.
From Equations Require Import Equations.
Import ListNotations.

Set Implicit Arguments.

(** ** Exceptions and the error monad *)

Inductive exn : Type :=
| ZeroDivisionError
| ValueError.

Inductive result (A : Type) : Type :=
| Ok (a : A)
| Raise (e : exn).
Arguments Ok {A} a.
Arguments Raise {A} e.

Definition rbind {A B} (m : result A) (k : A -> result B) : result B :=
  match m with
  | Ok a => k a
  | Raise e => Raise e
  end.

Declare Scope py_scope.
Delimit Scope py_scope with py.
Notation "x <- m ;; k" := (rbind m (fun x => k))
  (at level 61, m at next level, right associativity) : py_scope.
Notation "' pat <- m ;; k" := (rbind m (fun x => match x with pat => k end))
  (at level 61, pat pattern, m at next level, right associativity) : py_scope.

(** Python's true division on floats: [a / b]. *)
Definition py_div (a b : Q) : result Q :=
  if Qeq_bool b 0 then Raise ZeroDivisionError else Ok (a / b).

(** Comparisons, exact between [int] and [float] operands. *)
Definition py_ge (a b : Q) : bool := Qle_bool b a.
Definition py_gt (a b : Q) : bool := negb (Qle_bool a b).

(** ** [collections.deque] with [maxlen] *)

Module Deque.

Record t : Type := mk { items : list Q; maxlen : nat }.

(** [deque(maxlen=n)]: a negative [n] raises [ValueError]. *)
Definition create (n : Z) : result t :=
  if (n <? 0)%Z then Raise ValueError
  else Ok (mk [] (Z.to_nat n)).

(** [d.append(x)]: the new item goes to the right end; when the deque
    is over its bound afterwards, the leftmost item is discarded. *)
Definition append (d : t) (x : Q) : t :=
  let l := items d ++ [x] in
  mk (if (maxlen d <? length l)%nat then tl l else l) (maxlen d).

(** [sum(d)]: left to right, starting from [0]. *)
Definition sum (d : t) : Q := fold_left Qplus (items d) 0.

Definition len (d : t) : nat := length (items d).

End Deque.

(** The last [n] elements of a list. *)
Definition lastn {A} (n : nat) (l : list A) : list A :=
  skipn (length l - n) l.

(** ** Signals emitted by [VideoThread] *)

Record image : Type := { nbytes : Z }.

Inductive signal : Type :=
| change_pixmap_signal (cv_img : image)
| stream_status_signal (status : bool)
| fps_signal (fps : Q)
| bitrate_signal (bitrate : Q) (unit : string)
| resolution_signal (resolution : string).

(** [str(n)] for an [int]. *)
Definition str (n : Z) : string := NilZero.string_of_int (Z.to_int n).

Module Metrics.

Open Scope Q_scope.
Open Scope py_scope.

(** Lines 79-82: the instantaneous rate enters the history, the mean of
    the history is the new average. *)
Definition update_fps (fps_history : Deque.t) (prev_time current_time : Q)
  : result (Deque.t * Q) :=
  fps <- py_div 1 (current_time - prev_time) ;;
  let fps_history := Deque.append fps_history fps in
  avg_fps <- py_div (Deque.sum fps_history)
                    (inject_Z (Z.of_nat (Deque.len fps_history))) ;;
  Ok (fps_history, avg_fps).

(** Lines 91-96: the value in kbps and its promotion to Mbps. *)
Definition kbps_of (total_size : Z) : Q := inject_Z (total_size * 8) / 1000.

Definition report_bitrate (total_size : Z) : signal :=
  let bitrate := kbps_of total_size in
  if py_gt bitrate 2000
  then bitrate_signal (bitrate / 1000) "Mbps"
  else bitrate_signal bitrate "kbps".

(** Lines 86-98: the bitrate window. Returns the new counters and the
    signal, when one is due. *)
Definition update_bitrate (frame_count total_size : Z) (avg_fps : Q)
           (cv_img : image) : Z * Z * list signal :=
  let frame_size := nbytes cv_img in
  let total_size := (total_size + frame_size)%Z in
  let frame_count := (frame_count + 1)%Z in
  if py_ge (inject_Z frame_count) avg_fps
  then (0%Z, 0%Z, [report_bitrate total_size])
  else (frame_count, total_size, []).

End Metrics.

(** ** The capture worker, [VideoThread]

    [run] is modelled as a machine whose control states are the calls in
    which the thread blocks; each input is what the environment does
    next: a blocking call returns, a millisecond of a sleep elapses, or
    the GUI thread calls [stop].  The trace is the list of signals emitted;
    [print] and [cap.release] emit none and are left out, and so is the
    [self.wait()] of [stop], which blocks the caller, not the worker. *)

Module Capture.

Open Scope Q_scope.

(** The attributes set by [__init__] (lines 54-58). *)
Record worker : Type := {
  _run_flag : bool;
  fps_history : Deque.t
}.

Definition init (fps_history_length : Z) : result worker :=
  rbind (Deque.create fps_history_length)
        (fun d => Ok {| _run_flag := true; fps_history := d |}).

Inductive pc : Type :=
| InOpen                                   (* line 62, [cv2.VideoCapture] *)
| InRead (prev_time : Q) (frame_count total_size : Z) (* line 75, [cap.read] *)
| InSleep (remaining_ms : nat)             (* line 108, [self.msleep] *)
| Finished                                 (* [run] has returned *)
| Raised (e : exn).                        (* [run] was left by an exception *)

Record state : Type := { self : worker; at_ : pc }.

Inductive input : Type :=
| Stop                                 (* line 111, from the GUI thread *)
| Tick                                 (* one millisecond elapses *)
| Opened (r : option (Q * Z * Z))      (* [isOpened], [time.time()], width, height *)
| Frame (r : option (image * Q)).      (* [ret], [cv_img], [time.time()] of line 78 *)

Definition backoff_ms : nat := 1000.

(** Line 61: the test of the outer loop. *)
Definition outer_loop (w : worker) : state :=
  {| self := w; at_ := if _run_flag w then InOpen else Finished |}.

(** Line 74: the test of the inner loop; leaving it runs lines 103-104
    and comes back to line 61. *)
Definition inner_loop (w : worker) (prev_time : Q) (frame_count total_size : Z)
  : state * list signal :=
  if _run_flag w
  then ({| self := w; at_ := InRead prev_time frame_count total_size |}, [])
  else (outer_loop w, [stream_status_signal false]).

(** Lines 63-72 and 105-108: what follows the return of [VideoCapture]. *)
Definition on_open (w : worker) (r : option (Q * Z * Z)) : state * list signal :=
  match r with
  | Some (now, width, height) =>
      let '(s, evs) := inner_loop w now 0 0 in
      (s, stream_status_signal true
            :: resolution_signal (str width ++ "x" ++ str height) :: evs)
  | None =>
      ({| self := w; at_ := InSleep backoff_ms |}, [stream_status_signal false])
  end.

(** Lines 76-102: what follows the return of [cap.read]. *)
Definition on_read (w : worker) (prev_time : Q) (frame_count total_size : Z)
           (r : option (image * Q)) : state * list signal :=
  match r with
  | Some (cv_img, current_time) =>
      match Metrics.update_fps (fps_history w) prev_time current_time with
      | Raise e => ({| self := w; at_ := Raised e |}, [])
      | Ok (h, avg_fps) =>
          let w := {| _run_flag := _run_flag w; fps_history := h |} in
          let '(frame_count, total_size, rate) :=
            Metrics.update_bitrate frame_count total_size avg_fps cv_img in
          let '(s, evs) := inner_loop w current_time frame_count total_size in
          (s, fps_signal avg_fps :: rate ++ change_pixmap_signal cv_img :: evs)
      end
  | None => (outer_loop w, [stream_status_signal false])
  end.

(** One millisecond of [msleep]; when the sleep is over, line 61. *)
Definition on_tick (s : state) : state :=
  match at_ s with
  | InSleep (S (S r)) => {| self := self s; at_ := InSleep (S r) |}
  | InSleep _ => outer_loop (self s)
  | _ => s
  end.

(** Line 111. *)
Definition on_stop (s : state) : state :=
  {| self := {| _run_flag := false; fps_history := fps_history (self s) |};
     at_ := at_ s |}.

(** [None]: the input is the return of a call the worker is not in. *)
Definition step (s : state) (i : input) : option (state * list signal) :=
  match i, at_ s with
  | Stop, _ => Some (on_stop s, [])
  | Tick, _ => Some (on_tick s, [])
  | Opened r, InOpen => Some (on_open (self s) r)
  | Frame r, InRead prev_time frame_count total_size =>
      Some (on_read (self s) prev_time frame_count total_size r)
  | _, _ => None
  end.

Fixpoint run (s : state) (ins : list input) : option (state * list signal) :=
  match ins with
  | [] => Some (s, [])
  | i :: ins =>
      match step s i with
      | Some (s1, evs1) =>
          match run s1 ins with
          | Some (s2, evs2) => Some (s2, evs1 ++ evs2)
          | None => None
          end
      | None => None
      end
  end.

(** [thread.start()]: [run] begins with the test of line 61. *)
Definition start (w : worker) : state := outer_loop w.

End Capture.

(** ** The handshake listener, [handle_client]

    The reader holds what the peer delivers, one list of bytes per
    delivery; the end of the list is the end of the stream.  The writer
    is the log of the calls made on it, oldest first.  Writes are assumed
    to succeed. *)

Module Handshake.

Definition bytes : Type := list byte.

Inductive wcall : Type :=
| write (data : bytes)
| drain
| close.

Record conn : Type := { reader : list bytes; writer : list wcall }.

(** The coroutine threads the connection through its calls. *)
Definition io (A : Type) : Type := conn -> A * conn.

Definition ret {A} (a : A) : io A := fun c => (a, c).

Definition bind {A B} (m : io A) (k : A -> io B) : io B :=
  fun c => let '(a, c1) := m c in k a c1.

Declare Scope io_scope.
Delimit Scope io_scope with io.
Notation "x <- m ;; k" := (bind m (fun x => k))
  (at level 61, m at next level, right associativity) : io_scope.
Notation "m ;; k" := (bind m (fun _ => k))
  (at level 61, right associativity) : io_scope.
Open Scope io_scope.

(** [StreamReader.read(n)]: at most [n] of the bytes that are there, as
    soon as there is one; the empty string at the end of the stream. *)
Fixpoint read_from (n : nat) (r : list bytes) : bytes * list bytes :=
  match r with
  | [] => ([], [])
  | [] :: r' => read_from n r'
  | c :: r' =>
      (firstn n c, match skipn n c with [] => r' | rest => rest :: r' end)
  end.

Definition read (n : nat) : io bytes :=
  fun c => let '(b, r) := read_from n (reader c) in
           (b, {| reader := r; writer := writer c |}).

Definition call (w : wcall) : io unit :=
  fun c => (tt, {| reader := reader c; writer := writer c ++ [w] |}).

(** Bytes not yet read. *)
Definition pending (r : list bytes) : nat := length (concat r).

Definition inspect {A} (a : A) : {b : A | a = b} := exist _ a eq_refl.

(** Lines 268-272: one byte at a time until the stream ends. *)
Equations? message_loop (c : conn) : unit * conn
  by wf (pending (reader c)) lt :=
  message_loop c with inspect (read 1 c) := {
    | exist _ ([], c') _ => (tt, c')
    | exist _ (_ :: _, c') _ => message_loop c' }.
Proof.
  clear message_loop.
  assert (Hread : forall r,
    (length (fst (read_from 1 r)) + pending (snd (read_from 1 r)))%nat
    = pending r).
  { unfold pending. induction r as [|d r IH]; [reflexivity|].
    destruct d as [|x d]; [exact IH|].
    cbn. destruct d; cbn; reflexivity. }
  unfold read in e. specialize (Hread (reader c)).
  destruct (read_from 1 (reader c)) as [got r'].
  injection e as Hb Hc. subst got c'. cbn in *. lia.
Qed.

Section WithRandom.

(** [os.urandom]. *)
Variable urandom : nat -> bytes.

(** Lines 256-272. *)
Definition handle_client : io unit :=
  c1 <- read 1536 ;;
  let s1 := x03 :: urandom 1535 in
  call (write s1) ;;
  call drain ;;
  c2 <- read 1536 ;;
  let s2 := c1 in
  call (write s2) ;;
  call drain ;;
  message_loop.

End WithRandom.

(** What [handle_client] wrote on a fresh connection. *)
Definition accept (r : list bytes) : conn := {| reader := r; writer := [] |}.

Definition writes (c : conn) : list bytes :=
  flat_map (fun w => match w with write d => [d] | _ => [] end) (writer c).

Definition closed (c : conn) : bool :=
  existsb (fun w => match w with close => true | _ => false end) (writer c).

End Handshake.

(** ** The window, [MainWindow]: the labels and the slots

    The labels are the texts the slots set.  The conversions owned by Qt
    and by the format of floats are parameters: [format_2f] is the
    [:.2f] of an f-string, [convert_cv_qt] the method of that name. *)

Module MainWindow.

Local Open Scope string_scope.

Section Slots.

Variable format_2f : Q -> string.
Variable pixmap : Type.
Variable convert_cv_qt : image -> pixmap.

Record t : Type := {
  image_label : option pixmap;
  ip_label : string;
  url_label : string;
  status_label : string * string;       (* the text and the style sheet *)
  fps_label : string;
  bitrate_label : string;
  resolution_label : string
}.

(** Lines 147-153. *)
Definition init (local_ip stream_url : string) : t :=
  {| image_label := None;
     ip_label := "Local IP Address: " ++ local_ip;
     url_label := "RTMP URL: " ++ stream_url;
     status_label := ("Stream Status: Not Connected", "color: red;");
     fps_label := "FPS: 0";
     bitrate_label := "Bitrate: 0 kbps";
     resolution_label := "Resolution: 0x0" |}.

(** Lines 204-206. *)
Definition update_image (win : t) (cv_img : image) : t :=
  {| image_label := Some (convert_cv_qt cv_img);
     ip_label := ip_label win; url_label := url_label win;
     status_label := status_label win; fps_label := fps_label win;
     bitrate_label := bitrate_label win;
     resolution_label := resolution_label win |}.

(** Lines 208-214. *)
Definition update_stream_status (win : t) (status : bool) : t :=
  {| image_label := image_label win;
     ip_label := ip_label win; url_label := url_label win;
     status_label :=
       if status then ("Stream Status: Connected", "color: green;")
       else ("Stream Status: Not Connected", "color: red;");
     fps_label := fps_label win;
     bitrate_label := bitrate_label win;
     resolution_label := resolution_label win |}.

(** Lines 216-217. *)
Definition update_fps (win : t) (fps : Q) : t :=
  {| image_label := image_label win;
     ip_label := ip_label win; url_label := url_label win;
     status_label := status_label win;
     fps_label := "FPS: " ++ format_2f fps;
     bitrate_label := bitrate_label win;
     resolution_label := resolution_label win |}.

(** Lines 219-220. *)
Definition update_bitrate (win : t) (bitrate : Q) (unit : string) : t :=
  {| image_label := image_label win;
     ip_label := ip_label win; url_label := url_label win;
     status_label := status_label win; fps_label := fps_label win;
     bitrate_label := "Bitrate: " ++ format_2f bitrate ++ " " ++ unit;
     resolution_label := resolution_label win |}.

(** Lines 222-223. *)
Definition update_resolution (win : t) (resolution : string) : t :=
  {| image_label := image_label win;
     ip_label := ip_label win; url_label := url_label win;
     status_label := status_label win; fps_label := fps_label win;
     bitrate_label := bitrate_label win;
     resolution_label := "Resolution: " ++ resolution |}.

(** Lines 189-193: each signal is connected to its slot. *)
Definition dispatch (win : t) (sig : signal) : t :=
  match sig with
  | change_pixmap_signal cv_img => update_image win cv_img
  | stream_status_signal status => update_stream_status win status
  | fps_signal fps => update_fps win fps
  | bitrate_signal bitrate unit => update_bitrate win bitrate unit
  | resolution_signal resolution => update_resolution win resolution
  end.

(** The signals of the worker reach the slots in the order of emission. *)
Definition deliver (win : t) (evs : list signal) : t :=
  fold_left dispatch evs win.

End Slots.

End MainWindow.

(** ** The start-up code of the script (lines 275-280 and 313-350)

    Command-line text is taken as ASCII.  [int] applied to a string is a
    parameter; on a string it raises nothing but [ValueError]. *)

Module Main.

Local Open Scope string_scope.

(** [str.lower()]. *)
Definition lower_char (c : ascii) : ascii :=
  let n := N_of_ascii c in
  if ((65 <=? n) && (n <=? 90))%N then ascii_of_N (n + 32) else c.

Fixpoint lower (s : string) : string :=
  match s with
  | EmptyString => EmptyString
  | String c s => String (lower_char c) (lower s)
  end.

(** [s.split(sep)] for a separator of one character. *)
Fixpoint split (sep : ascii) (s : string) : list string :=
  match s with
  | EmptyString => [EmptyString]
  | String c s =>
      if Ascii.eqb c sep then EmptyString :: split sep s
      else match split sep s with
           | field :: fields => String c field :: fields
           | [] => [String c EmptyString]
           end
  end.

Section Sizes.

Variable int : string -> option Z.

(** [width, height = map(int, fields)]: the items are converted as the
    unpacking asks for them; a failed conversion, a missing item and an
    item too many all raise [ValueError]. *)
Definition unpack_pair (fields : list string) : result (Z * Z) :=
  match fields with
  | [] => Raise ValueError
  | f1 :: fields =>
      match int f1 with
      | None => Raise ValueError
      | Some width =>
          match fields with
          | [] => Raise ValueError
          | f2 :: fields =>
              match int f2 with
              | None => Raise ValueError
              | Some height =>
                  match fields with
                  | [] => Ok (width, height)
                  | _ :: _ => Raise ValueError
                  end
              end
          end
      end
  end.

(** Lines 337-342 and 345-350: the size, and what is printed. *)
Definition parse_size (size : string) (default : Z * Z) (message : string)
  : (Z * Z) * list string :=
  match unpack_pair (split "x" (lower size)) with
  | Ok (width, height) => ((width, height), [])
  | Raise _ => (default, [message])
  end.

Definition window_size (arg : string) : (Z * Z) * list string :=
  parse_size arg (800%Z, 600%Z) "Invalid window size format. Using default 800x600.".

Definition display_size (arg : string) : (Z * Z) * list string :=
  parse_size arg (640%Z, 480%Z) "Invalid display size format. Using default 640x480.".

End Sizes.

(** An argument that is [None] or the empty string is false. *)
Definition truthy (arg : option string) : option string :=
  match arg with
  | Some EmptyString | None => None
  | Some s => Some s
  end.

(** Lines 280 and 334. *)
Definition rtmp_url (local_ip : string) (port : Z) (stream_path : string) : string :=
  "rtmp://" ++ local_ip ++ ":" ++ str port ++ stream_path.

Section Urls.

(** What [get_local_ip()] returns. *)
Variable detected_ip : string.

(** Lines 323-334: the locator the viewer opens. *)
Definition viewer_url (arg_local_ip arg_stream_url : option string)
           (port : Z) (stream_path : string) : string :=
  let local_ip :=
    match truthy arg_local_ip with Some ip => ip | None => detected_ip end in
  match truthy arg_stream_url with
  | Some url => url
  | None => rtmp_url local_ip port stream_path
  end.

(** Lines 276-280: the locator the server prints. *)
Definition server_url (port : Z) (stream_path : string) : string :=
  rtmp_url detected_ip port stream_path.

End Urls.

End Main.

(** ** Vocabulary of the specification

    These definitions follow the words of the specification; the
    theorems compare them with the code above. *)

Module Spec.

Open Scope Q_scope.

(** The inter-frame intervals of a session: each arrival time minus the
    one before, the first one minus the time of the open. *)
Fixpoint intervals (prev_time : Q) (times : list Q) : list Q :=
  match times with
  | [] => []
  | t :: times => (t - prev_time) :: intervals t times
  end.

Definition total (l : list Q) : Q := fold_left Qplus l 0.

Definition mean (l : list Q) : Q := total l / inject_Z (Z.of_nat (length l)).

(** "the reciprocal of the arithmetic mean of those intervals" *)
Definition reciprocal_of_mean (ds : list Q) : Q := / mean ds.

(** The instantaneous rate of one interval. *)
Definition rate (d : Q) : Q := 1 / d.

(** "(accumulated bytes x 8) / elapsed-window-in-ms" *)
Definition bits_per_ms (accumulated_bytes : Z) (elapsed_ms : Q) : Q :=
  inject_Z (accumulated_bytes * 8) / elapsed_ms.

(** "rounded": to the nearest integer. *)
Definition rounded (q : Q) : Z := Qfloor (q + (1 # 2)).

(** An emitted bitrate read back in kbps. *)
Definition in_kbps (value : Q) (unit : string) : Q :=
  if String.eqb unit "Mbps" then value * 1000 else value.

(** The last average the worker emitted. *)
Fixpoint last_fps (evs : list signal) : option Q :=
  match evs with
  | [] => None
  | e :: evs =>
      match last_fps evs, e with
      | Some v, _ => Some v
      | None, fps_signal v => Some v
      | None, _ => None
      end
  end.

Definition is_resolution (e : signal) : bool :=
  match e with resolution_signal _ => true | _ => false end.

Definition is_fps (e : signal) : bool :=
  match e with fps_signal _ => true | _ => false end.

Definition is_bitrate (e : signal) : bool :=
  match e with bitrate_signal _ _ => true | _ => false end.

(** Inputs that are not a frame read with success. *)
Definition no_frame (i : Capture.input) : bool :=
  match i with Capture.Frame (Some _) => false | _ => true end.

(** Inputs that are not the return of an open. *)
Definition no_open (i : Capture.input) : bool :=
  match i with Capture.Opened _ => false | _ => true end.

(** The per-connection states of the specification, read off the
    writer: each reply of the server moves the handshake forward, a
    close before the second reply aborts it.  The code keeps no such
    state and never closes: a handler that has returned has written both
    replies, so this reads [Established] for it, whatever was read. *)
Inductive HandshakeState : Type :=
| AwaitClientHello
| AwaitClientAck
| Established
| Aborted.

Definition state_of (c : Handshake.conn) : HandshakeState :=
  match length (Handshake.writes c), Handshake.closed c with
  | 0%nat, false => AwaitClientHello
  | 1%nat, false => AwaitClientAck
  | 0%nat, true | 1%nat, true => Aborted
  | _, _ => Established
  end.

End Spec.

(** ** Shorthands of the statements *)

(** A window within its bound, with room for one sample at least. *)
Definition window_ok (h : Deque.t) : Prop :=
  (0 < Deque.maxlen h)%nat /\ (length (Deque.items h) <= Deque.maxlen h)%nat.

(** The reads of a run of frames. *)
Definition frame_inputs (frames : list (image * Q)) : list Capture.input :=
  map (fun f => Capture.Frame (Some f)) frames.

(** A thousand frames of 1920x1080 in three channels, one per second. *)
Definition thousand_frames : list Capture.input :=
  map (fun k => Capture.Frame (Some ({| nbytes := 6220800 |}, inject_Z (Z.of_nat k))))
      (seq 1 1000).

(** The last status emitted. *)
Fixpoint last_status (evs : list signal) : option bool :=
  match evs with
  | [] => None
  | e :: evs =>
      match last_status evs, e with
      | Some b, _ => Some b
      | None, stream_status_signal b => Some b
      | None, _ => None
      end
  end.

(** The last resolution emitted. *)
Fixpoint last_resolution (evs : list signal) : option string :=
  match evs with
  | [] => None
  | e :: evs =>
      match last_resolution evs, e with
      | Some r, _ => Some r
      | None, resolution_signal r => Some r
      | None, _ => None
      end
  end.

(** The size of the last open that succeeded. *)
Fixpoint last_opened (ins : list Capture.input) : option (Z * Z) :=
  match ins with
  | [] => None
  | i :: ins =>
      match last_opened ins, i with
      | Some d, _ => Some d
      | None, Capture.Opened (Some (_, width, height)) => Some (width, height)
      | None, _ => None
      end
  end.

Definition is_pixmap (e : signal) : bool :=
  match e with change_pixmap_signal _ => true | _ => false end.

Definition is_frame (i : Capture.input) : bool :=
  match i with Capture.Frame (Some _) => true | _ => false end.

(** The worker is in a session: inside [cap.read], or thrown out of it. *)
Definition in_session (p : Capture.pc) : bool :=
  match p with
  | Capture.InRead _ _ _ | Capture.Raised _ => true
  | _ => false
  end.

(** The occurrences of a character. *)
Fixpoint occurrences (c : ascii) (s : string) : nat :=
  match s with
  | EmptyString => 0
  | String a s => (if Ascii.eqb a c then 1 else 0) + occurrences c s
  end.

(** A history with bound [m], within it. *)
Definition bounded_by (m : nat) (h : Deque.t) : Prop :=
  Deque.maxlen h = m /\ (length (Deque.items h) <= m)%nat.

(** A size as the resolution signal writes it. *)
Definition shown (size : Z * Z) : string :=
  (str (fst size) ++ "x" ++ str (snd size))%string.

(** A window for the examples: two-decimal formatting left symbolic, the
    picture kept as the frame itself. *)
Definition plain_format (q : Q) : string := "?"%string.
Definition keep_image (cv_img : image) : image := cv_img.

(** A source of random bytes for the examples. *)
Definition zeros (n : nat) : Handshake.bytes := repeat x00 n.

(** * Properties *)

(** ** The bounded window *)

Section Window.

Context {A : Type}.
Implicit Types (l a b : list A) (m : nat).

Lemma lastn_length m l : length (lastn m l) = Nat.min m (length l).
Proof. unfold lastn. rewrite length_skipn. lia. Qed.

Lemma lastn_all m l : (length l <= m)%nat -> lastn m l = l.
Proof.
  intros H. unfold lastn.
  replace (length l - m)%nat with 0%nat by lia. reflexivity.
Qed.

Lemma lastn_app_lastn m a b : lastn m (lastn m a ++ b) = lastn m (a ++ b).
Proof.
  destruct (Nat.le_gt_cases (length a) m) as [Hle|Hgt].
  - now rewrite (lastn_all a Hle).
  - unfold lastn. set (k := (length a - m)%nat).
    assert (E : skipn k (a ++ b) = skipn k a ++ b).
    { rewrite skipn_app. replace (k - length a)%nat with 0%nat by lia.
      reflexivity. }
    rewrite <- E, skipn_skipn. f_equal.
    rewrite length_skipn, length_app. lia.
Qed.

Lemma lastn_snoc_nonempty m l x : (0 < m)%nat -> lastn m (l ++ [x]) <> [].
Proof.
  intros Hm E. apply (f_equal (@length A)) in E.
  rewrite lastn_length, length_app in E. cbn in E. lia.
Qed.

Lemma last_shift l (x d : A) : last (x :: l) d = last l x.
Proof.
  revert x d. induction l as [|a l IH]; intros x d; [reflexivity|].
  change (last (x :: a :: l) d) with (last (a :: l) d).
  rewrite IH. symmetry. apply IH.
Qed.

End Window.

Lemma append_items d x :
  (length (Deque.items d) <= Deque.maxlen d)%nat ->
  Deque.items (Deque.append d x) = lastn (Deque.maxlen d) (Deque.items d ++ [x]).
Proof.
  intros H. unfold Deque.append, lastn. cbn [Deque.items].
  rewrite length_app. cbn [length].
  destruct (Nat.ltb_spec (Deque.maxlen d) (length (Deque.items d) + 1)) as [Hlt|Hge].
  - replace (length (Deque.items d) + 1 - Deque.maxlen d)%nat with 1%nat by lia.
    reflexivity.
  - replace (length (Deque.items d) + 1 - Deque.maxlen d)%nat with 0%nat by lia.
    reflexivity.
Qed.

Lemma append_maxlen d x : Deque.maxlen (Deque.append d x) = Deque.maxlen d.
Proof. reflexivity. Qed.

Lemma append_bounded d x :
  (length (Deque.items d) <= Deque.maxlen d)%nat ->
  (length (Deque.items (Deque.append d x)) <= Deque.maxlen (Deque.append d x))%nat.
Proof.
  intros H. rewrite append_items, lastn_length, append_maxlen by exact H.
  apply Nat.le_min_l.
Qed.

(** ** Rational arithmetic of the metrics *)

Lemma py_div_ok a b : ~ b == 0 -> py_div a b = Ok (a / b).
Proof.
  intros H. unfold py_div.
  destruct (Qeq_bool b 0) eqn:E; [|reflexivity].
  apply Qeq_bool_eq in E. contradiction.
Qed.

Lemma py_div_zero a b : b == 0 -> py_div a b = Raise ZeroDivisionError.
Proof.
  intros H. unfold py_div. now rewrite (Qeq_eq_bool _ _ H).
Qed.

Lemma inject_len_nonzero {A} (l : list A) :
  l <> [] -> ~ inject_Z (Z.of_nat (length l)) == 0.
Proof.
  intros Hl E. destruct l as [|x l]; [congruence|].
  unfold Qeq in E. cbn [length Qnum Qden inject_Z] in E. lia.
Qed.

(** The moving average of lines 79-82, in closed form. *)
Lemma update_fps_ok h prev_time current_time :
  (0 < Deque.maxlen h)%nat ->
  (length (Deque.items h) <= Deque.maxlen h)%nat ->
  ~ current_time - prev_time == 0 ->
  let window :=
    lastn (Deque.maxlen h)
          (Deque.items h ++ [Spec.rate (current_time - prev_time)]) in
  Metrics.update_fps h prev_time current_time
  = Ok (Deque.mk window (Deque.maxlen h), Spec.mean window).
Proof.
  intros Hm Hlen Hd window. unfold Metrics.update_fps.
  rewrite (py_div_ok _ Hd). cbn [rbind].
  pose proof (append_items h (1 / (current_time - prev_time)) Hlen) as Hit.
  fold (Spec.rate (current_time - prev_time)) in Hit |- *. fold window in Hit.
  assert (Hh : Deque.append h (Spec.rate (current_time - prev_time))
               = Deque.mk window (Deque.maxlen h)).
  { destruct (Deque.append h _) as [it ml] eqn:E.
    cbn in Hit. subst it. f_equal.
    apply (f_equal Deque.maxlen) in E. rewrite append_maxlen in E. now cbn in E. }
  rewrite Hh. unfold Deque.len, Deque.sum. cbn [Deque.items].
  rewrite py_div_ok.
  - reflexivity.
  - apply inject_len_nonzero. now apply lastn_snoc_nonempty.
Qed.

(** ** The capture worker *)

Import Capture.
Unset Implicit Arguments.

Lemma run_app s a b :
  run s (a ++ b)
  = match run s a with
    | Some (s1, evs1) =>
        match run s1 b with
        | Some (s2, evs2) => Some (s2, evs1 ++ evs2)
        | None => None
        end
    | None => None
    end.
Proof.
  revert s. induction a as [|i a IH]; intros s; cbn [run app].
  - destruct (run s b) as [[s2 evs2]|]; reflexivity.
  - destruct (step s i) as [[s1 evs1]|]; [|reflexivity].
    rewrite IH. destruct (run s1 a) as [[s2 evs2]|]; [|reflexivity].
    destruct (run s2 b) as [[s3 evs3]|]; [|reflexivity].
    now rewrite app_assoc.
Qed.

Lemma window_ok_lastn m l : (0 < m)%nat -> window_ok (Deque.mk (lastn m l) m).
Proof.
  intros Hm. split; cbn; [exact Hm|]. rewrite lastn_length. apply Nat.le_min_l.
Qed.

(** A frame read in closed form, when the clock has moved. *)
Lemma step_frame w prev_time frame_count total_size cv_img current_time :
  window_ok (fps_history w) ->
  ~ current_time - prev_time == 0 ->
  let m := Deque.maxlen (fps_history w) in
  let window :=
    lastn m (Deque.items (fps_history w)
             ++ [Spec.rate (current_time - prev_time)]) in
  let w' := {| _run_flag := _run_flag w; fps_history := Deque.mk window m |} in
  step {| self := w; at_ := InRead prev_time frame_count total_size |}
       (Frame (Some (cv_img, current_time)))
  = Some
      (let '(fc, ts, rate) :=
         Metrics.update_bitrate frame_count total_size (Spec.mean window) cv_img in
       let '(s, evs) := inner_loop w' current_time fc ts in
       (s, fps_signal (Spec.mean window) :: rate ++ change_pixmap_signal cv_img :: evs)).
Proof.
  intros [Hm Hlen] Hd m window w'. cbn [step at_ self on_read].
  rewrite (update_fps_ok (fps_history w) Hm Hlen Hd). reflexivity.
Qed.

Lemma update_bitrate_cases frame_count total_size avg_fps cv_img :
  let fc := (frame_count + 1)%Z in
  let ts := (total_size + nbytes cv_img)%Z in
  (avg_fps <= inject_Z fc /\
   Metrics.update_bitrate frame_count total_size avg_fps cv_img
   = (0%Z, 0%Z, [Metrics.report_bitrate ts]))
  \/ (inject_Z fc < avg_fps /\
      Metrics.update_bitrate frame_count total_size avg_fps cv_img = (fc, ts, [])).
Proof.
  intros fc ts. unfold Metrics.update_bitrate, py_ge. fold fc ts.
  destruct (Qle_bool avg_fps (inject_Z fc)) eqn:E.
  - left. split; [now apply Qle_bool_iff|reflexivity].
  - right. split; [|reflexivity].
    apply Qnot_le_lt. intros H. apply Qle_bool_iff in H. congruence.
Qed.

Lemma report_bitrate_cases total_size :
  let k := Metrics.kbps_of total_size in
  (2000 < k /\ Metrics.report_bitrate total_size = bitrate_signal (k / 1000) "Mbps")
  \/ (k <= 2000 /\ Metrics.report_bitrate total_size = bitrate_signal k "kbps").
Proof.
  intros k. unfold Metrics.report_bitrate, py_gt. fold k.
  destruct (Qle_bool k 2000) eqn:E; cbn [negb].
  - right. split; [now apply Qle_bool_iff|reflexivity].
  - left. split; [|reflexivity].
    apply Qnot_le_lt. intros H. apply Qle_bool_iff in H. congruence.
Qed.

Lemma last_fps_app a b :
  Spec.last_fps (a ++ b)
  = match Spec.last_fps b with Some v => Some v | None => Spec.last_fps a end.
Proof.
  induction a as [|e a IH]; cbn [app Spec.last_fps].
  - now destruct (Spec.last_fps b).
  - rewrite IH. destruct (Spec.last_fps b); [reflexivity|].
    destruct (Spec.last_fps a); reflexivity.
Qed.

Lemma last_fps_none evs :
  Forall (fun e => Spec.is_fps e = false) evs -> Spec.last_fps evs = None.
Proof.
  induction 1 as [|e evs He _ IH]; [reflexivity|].
  cbn [Spec.last_fps]. rewrite IH. destruct e; try reflexivity; discriminate.
Qed.

Lemma last_fps_frame avg rate cv_img :
  Forall (fun e => Spec.is_fps e = false) rate ->
  Spec.last_fps (fps_signal avg :: rate ++ [change_pixmap_signal cv_img]) = Some avg.
Proof.
  intros H. cbn [Spec.last_fps]. rewrite last_fps_app. cbn [Spec.last_fps].
  now rewrite (last_fps_none rate H).
Qed.

Lemma update_bitrate_signals frame_count total_size avg_fps cv_img :
  Forall (fun e => Spec.is_bitrate e = true)
         (snd (Metrics.update_bitrate frame_count total_size avg_fps cv_img)).
Proof.
  destruct (update_bitrate_cases frame_count total_size avg_fps cv_img)
    as [[_ ->]|[_ ->]]; cbn [snd]; [|constructor].
  constructor; [|constructor].
  destruct (report_bitrate_cases (total_size + nbytes cv_img)) as [[_ ->]|[_ ->]];
    reflexivity.
Qed.

(** A run of frame reads during which the clock always moves and nobody
    stops the worker: the window ends up holding the most recent rates,
    and the last average emitted is their mean. *)
Lemma run_frames frames : forall w t0 fc ts,
  _run_flag w = true ->
  window_ok (fps_history w) ->
  Forall (fun d => ~ d == 0) (Spec.intervals t0 (map snd frames)) ->
  let m := Deque.maxlen (fps_history w) in
  let window :=
    lastn m (Deque.items (fps_history w)
             ++ map Spec.rate (Spec.intervals t0 (map snd frames))) in
  exists fc' ts' evs,
    run {| self := w; at_ := InRead t0 fc ts |} (frame_inputs frames)
    = Some ({| self := {| _run_flag := true; fps_history := Deque.mk window m |};
               at_ := InRead (last (map snd frames) t0) fc' ts' |}, evs)
    /\ Spec.last_fps evs
       = match frames with [] => None | _ => Some (Spec.mean window) end.
Proof.
  induction frames as [|[cv_img now] frames IH]; intros w t0 fc ts Hflag Hok Hd m window.
  - exists fc, ts, []. split; [|reflexivity]. cbn [frame_inputs map run].
    destruct w as [flag [it ml]]. cbn in *. subst flag window m.
    destruct Hok as [_ Hlen]. cbn in Hlen.
    rewrite app_nil_r. fold (lastn ml it). now rewrite (lastn_all it Hlen).
  - cbn [map snd Spec.intervals] in Hd. inversion Hd as [|d ds Hd1 Hd2]; subst.
    cbn [frame_inputs map run]. rewrite (step_frame w t0 fc ts cv_img now Hok Hd1).
    fold m. set (w1 := lastn m _).
    pose proof (update_bitrate_signals fc ts (Spec.mean w1) cv_img) as Hrate.
    destruct (Metrics.update_bitrate fc ts (Spec.mean w1) cv_img) as [[fc1 ts1] rate].
    cbn [snd] in Hrate. unfold inner_loop. cbn [_run_flag]. rewrite Hflag.
    specialize (IH {| _run_flag := true; fps_history := Deque.mk w1 m |}
                   now fc1 ts1 eq_refl).
    cbn [fps_history Deque.maxlen Deque.items] in IH.
    destruct (IH (window_ok_lastn m _ (proj1 Hok)) Hd2) as (fc' & ts' & evs & Hrun & Hlast).
    assert (Hw : lastn m (w1 ++ map Spec.rate (Spec.intervals now (map snd frames)))
                 = window).
    { unfold w1, window. rewrite lastn_app_lastn, <- app_assoc. reflexivity. }
    rewrite Hw in Hrun, Hlast.
    fold (frame_inputs frames). cbn [map snd]. rewrite Hrun, last_shift.
    exists fc', ts'. eexists. split.
    + reflexivity.
    + rewrite last_fps_app, Hlast.
      destruct frames as [|f frames]; [|reflexivity].
      rewrite last_fps_frame.
      * reflexivity.
      * eapply Forall_impl; [|exact Hrate]. intros e He. now destruct e.
Qed.

(** *** The moving average *)

(** C1, as the code has it. A worker created with a positive history length
    [n] reads [N >= 1] frames in a session, the clock moving between any two
    of them. The history then holds the instantaneous rates (reciprocals of
    the intervals) of the last [min N n] frames, oldest first, and the last
    average emitted is the arithmetic mean of these rates: of all [N] rates
    when [N <= n], of the rates that remain after the [N - n] oldest were
    evicted otherwise. *)
Theorem moving_average_of_rates
  (fps_history_length : Z) (w : worker) (frames : list (image * Q))
  (t0 : Q) (frame_count total_size : Z) :
  let m := Z.to_nat fps_history_length in
  let rates := map Spec.rate (Spec.intervals t0 (map snd frames)) in
  (0 < fps_history_length)%Z ->
  init fps_history_length = Ok w ->
  frames <> [] ->
  Forall (fun d => ~ d == 0) (Spec.intervals t0 (map snd frames)) ->
  exists s evs,
    run {| self := w; at_ := InRead t0 frame_count total_size |}
        (frame_inputs frames) = Some (s, evs)
    /\ Deque.items (fps_history (self s)) = lastn m rates
    /\ Spec.last_fps evs = Some (Spec.mean (lastn m rates))
    /\ ((length frames <= m)%nat -> lastn m rates = rates)
    /\ ((m < length frames)%nat ->
        lastn m rates = skipn (length frames - m) rates).
Proof.
  intros m rates Hn Hinit Hne Hd.
  unfold init, Deque.create in Hinit.
  destruct (Z.ltb_spec fps_history_length 0) as [Hneg|_]; [lia|].
  cbn [rbind] in Hinit. injection Hinit as <-.
  assert (Hok : window_ok (Deque.mk [] m)).
  { split; cbn; lia. }
  destruct (run_frames frames {| _run_flag := true; fps_history := Deque.mk [] m |}
                       t0 frame_count total_size eq_refl Hok Hd)
    as (fc' & ts' & evs & Hrun & Hlast).
  cbn [fps_history Deque.items Deque.maxlen app] in Hrun, Hlast.
  fold m rates in Hrun, Hlast.
  assert (Hlen : length rates = length frames).
  { unfold rates. rewrite length_map.
    assert (H : forall p l, length (Spec.intervals p l) = length l).
    { intros p l. revert p. induction l as [|t l IH]; intros p; cbn; [|rewrite IH];
        reflexivity. }
    now rewrite H, length_map. }
  eexists. exists evs. split; [exact Hrun|]. cbn [self fps_history Deque.items].
  split; [reflexivity|]. split.
  - rewrite Hlast. destruct frames; [contradiction|reflexivity].
  - split; intros H.
    + apply lastn_all. lia.
    + unfold lastn. now rewrite Hlen.
Qed.

Lemma moving_average_of_rates_witness :
  let frames := [({| nbytes := 10 |}, 1 # 2);
                 ({| nbytes := 10 |}, 3 # 4);
                 ({| nbytes := 10 |}, 1)] in
  let rates := map Spec.rate (Spec.intervals 0 (map snd frames)) in
  exists s evs,
    run {| self := {| _run_flag := true; fps_history := Deque.mk [] 2 |};
           at_ := InRead 0 0 0 |}
        (frame_inputs frames) = Some (s, evs)
    /\ Deque.items (fps_history (self s)) = lastn 2 rates
    /\ Spec.last_fps evs = Some (Spec.mean (lastn 2 rates))
    /\ ((length frames <= 2)%nat -> lastn 2 rates = rates)
    /\ ((2 < length frames)%nat -> lastn 2 rates = skipn (length frames - 2) rates).
Proof.
  intros frames rates.
  apply (moving_average_of_rates 2 _ frames 0 0 0).
  - lia.
  - reflexivity.
  - discriminate.
  - repeat constructor; intros H; vm_compute in H; discriminate.
Defined.

(** C1 as stated fails: with the default history length and two intervals of
    1/2 s and 1/4 s the worker emits the mean of the rates 2 and 4, which
    is 3, not the reciprocal of the mean interval, which is 8/3. *)
Lemma moving_average_counterexample :
  exists w s evs avg,
    init 120 = Ok w
    /\ run {| self := w; at_ := InRead 0 0 0 |}
           (frame_inputs [({| nbytes := 10 |}, 1 # 2); ({| nbytes := 10 |}, 3 # 4)])
       = Some (s, evs)
    /\ Spec.last_fps evs = Some avg
    /\ avg == 3
    /\ Spec.reciprocal_of_mean (Spec.intervals 0 [1 # 2; 3 # 4]) == 8 # 3
    /\ ~ avg == Spec.reciprocal_of_mean (Spec.intervals 0 [1 # 2; 3 # 4]).
Proof.
  eexists. eexists. eexists. eexists.
  split; [reflexivity|].
  split; [vm_compute; reflexivity|].
  split; [vm_compute; reflexivity|].
  split; [vm_compute; reflexivity|].
  split; [vm_compute; reflexivity|].
  intros H. vm_compute in H. discriminate.
Qed.

(** *** The bitrate window *)

Lemma inner_loop_cases w prev_time frame_count total_size :
  inner_loop w prev_time frame_count total_size
  = ({| self := w; at_ := InRead prev_time frame_count total_size |}, [])
  \/ inner_loop w prev_time frame_count total_size
     = ({| self := w; at_ := Finished |}, [stream_status_signal false]).
Proof.
  unfold inner_loop, outer_loop. destruct (_run_flag w); [left|right]; reflexivity.
Qed.

(** The frame read that crosses the threshold, and the one that does not. *)
Lemma step_frame_bitrate w prev_time frame_count total_size cv_img current_time :
  window_ok (fps_history w) ->
  ~ current_time - prev_time == 0 ->
  let avg_fps :=
    Spec.mean (lastn (Deque.maxlen (fps_history w))
                     (Deque.items (fps_history w)
                      ++ [Spec.rate (current_time - prev_time)])) in
  let s := {| self := w; at_ := InRead prev_time frame_count total_size |} in
  exists s' rest,
    Forall (fun e => Spec.is_bitrate e = false) rest
    /\ ((avg_fps <= inject_Z (frame_count + 1)
         /\ step s (Frame (Some (cv_img, current_time)))
            = Some (s', fps_signal avg_fps
                          :: Metrics.report_bitrate (total_size + nbytes cv_img)
                          :: change_pixmap_signal cv_img :: rest)
         /\ (at_ s' = InRead current_time 0 0 \/ at_ s' = Finished))
        \/ (inject_Z (frame_count + 1) < avg_fps
            /\ step s (Frame (Some (cv_img, current_time)))
               = Some (s', fps_signal avg_fps :: change_pixmap_signal cv_img :: rest)
            /\ (at_ s' = InRead current_time (frame_count + 1)
                                (total_size + nbytes cv_img)
                \/ at_ s' = Finished))).
Proof.
  intros Hok Hd avg_fps s. unfold s.
  rewrite (step_frame w prev_time frame_count total_size cv_img current_time Hok Hd).
  fold avg_fps.
  destruct (update_bitrate_cases frame_count total_size avg_fps cv_img)
    as [[Hle ->]|[Hlt ->]];
    match goal with
    | |- context [inner_loop ?w ?p ?fc ?ts] =>
        destruct (inner_loop_cases w p fc ts) as [-> | ->]
    end;
    eexists; eexists;
    (split; [|first [left; split; [exact Hle|split; [reflexivity|]]
                    |right; split; [exact Hlt|split; [reflexivity|]]];
               cbn [at_]; auto]);
    repeat constructor.
Qed.

(** C2, as the code has it. A frame is read while the average FPS, compared
    as it is (not rounded), is at most the frame count that includes this
    frame: the worker emits one bitrate whose value, read back in kbps, is
    the accumulated bytes times 8 divided by the constant 1000 (the window
    is taken to last one second; no elapsed time is measured), and the
    counters start again from zero. While the frame count is below the
    average, no bitrate is emitted and the counters keep accumulating. *)
Theorem bitrate_over_constant_window
  (w : worker) (prev_time : Q) (frame_count total_size : Z)
  (cv_img : image) (current_time : Q) :
  window_ok (fps_history w) ->
  ~ current_time - prev_time == 0 ->
  let avg_fps :=
    Spec.mean (lastn (Deque.maxlen (fps_history w))
                     (Deque.items (fps_history w)
                      ++ [Spec.rate (current_time - prev_time)])) in
  let s := {| self := w; at_ := InRead prev_time frame_count total_size |} in
  let i := Frame (Some (cv_img, current_time)) in
  (avg_fps <= inject_Z (frame_count + 1) ->
   exists value unit s' rest,
     step s i = Some (s', fps_signal avg_fps :: bitrate_signal value unit
                            :: change_pixmap_signal cv_img :: rest)
     /\ Spec.in_kbps value unit
        == inject_Z ((total_size + nbytes cv_img) * 8) / 1000
     /\ Forall (fun e => Spec.is_bitrate e = false) rest
     /\ (at_ s' = InRead current_time 0 0 \/ at_ s' = Finished))
  /\ (inject_Z (frame_count + 1) < avg_fps ->
      exists s' rest,
        step s i = Some (s', fps_signal avg_fps :: change_pixmap_signal cv_img :: rest)
        /\ Forall (fun e => Spec.is_bitrate e = false) rest
        /\ (at_ s' = InRead current_time (frame_count + 1)
                            (total_size + nbytes cv_img)
            \/ at_ s' = Finished)).
Proof.
  intros Hok Hd avg_fps s i.
  destruct (step_frame_bitrate w prev_time frame_count total_size cv_img
                               current_time Hok Hd)
    as (s' & rest & Hrest & [(Hle & Hstep & Hat)|(Hlt & Hstep & Hat)]);
    fold avg_fps s i in Hstep.
  - split; intros H.
    + destruct (report_bitrate_cases (total_size + nbytes cv_img))
        as [[Hk E]|[Hk E]]; rewrite E in Hstep;
        eexists; eexists; exists s', rest;
        (split; [exact Hstep|split; [|split; assumption]]).
      * unfold Spec.in_kbps, Metrics.kbps_of. cbn [String.eqb Ascii.eqb Bool.eqb].
        field.
      * reflexivity.
    + exfalso. apply (Qlt_irrefl avg_fps). eapply Qle_lt_trans; eassumption.
  - split; intros H.
    + exfalso. apply (Qlt_irrefl avg_fps). eapply Qle_lt_trans; eassumption.
    + exists s', rest. auto.
Qed.

Lemma bitrate_over_constant_window_witness :
  let w := {| _run_flag := true; fps_history := Deque.mk [30] 120 |} in
  let avg_fps := Spec.mean (lastn 120 ([30] ++ [Spec.rate ((11 # 10) - 1)])) in
  let s := {| self := w; at_ := InRead 1 19 5000000 |} in
  let i := Frame (Some ({| nbytes := 250000 |}, 11 # 10)) in
  (avg_fps <= inject_Z (19 + 1) ->
   exists value unit s' rest,
     step s i = Some (s', fps_signal avg_fps :: bitrate_signal value unit
                            :: change_pixmap_signal {| nbytes := 250000 |} :: rest)
     /\ Spec.in_kbps value unit == inject_Z ((5000000 + 250000) * 8) / 1000
     /\ Forall (fun e => Spec.is_bitrate e = false) rest
     /\ (at_ s' = InRead (11 # 10) 0 0 \/ at_ s' = Finished))
  /\ (inject_Z (19 + 1) < avg_fps ->
      exists s' rest,
        step s i = Some (s', fps_signal avg_fps
                               :: change_pixmap_signal {| nbytes := 250000 |} :: rest)
        /\ Forall (fun e => Spec.is_bitrate e = false) rest
        /\ (at_ s' = InRead (11 # 10) (19 + 1) (5000000 + 250000)
            \/ at_ s' = Finished)).
Proof.
  intros w avg_fps s i.
  apply (bitrate_over_constant_window w 1 19 5000000 {| nbytes := 250000 |} (11 # 10)).
  - split; cbn; lia.
  - intros H. vm_compute in H. discriminate.
Defined.

(** C2 as stated fails. A session opens at time 0 and its first frame, of
    1000 bytes, arrives 2 s later: the average is 1/2, the frame count 1
    reaches it, and the worker emits 8 kbps, where the accumulated bits over
    the 2000 ms that elapsed are 4 kbps. And with frames at 1/3 s and 8/9 s
    the average is 2.4 after two frames: the count has reached the rounded
    average, yet nothing is emitted. *)
Lemma bitrate_counterexample :
  exists w,
    init 120 = Ok w
    /\ (exists s avg value,
          run (start w) [Opened (Some (0, 640%Z, 480%Z));
                         Frame (Some ({| nbytes := 1000 |}, 2))]
          = Some (s, [stream_status_signal true; resolution_signal "640x480";
                      fps_signal avg; bitrate_signal value "kbps";
                      change_pixmap_signal {| nbytes := 1000 |}])
          /\ value == 8
          /\ Spec.bits_per_ms 1000 ((2 - 0) * 1000) == 4
          /\ ~ value == Spec.bits_per_ms 1000 ((2 - 0) * 1000))
    /\ (exists s evs avg,
          run (start w) [Opened (Some (0, 640%Z, 480%Z));
                         Frame (Some ({| nbytes := 1000 |}, 1 # 3));
                         Frame (Some ({| nbytes := 1000 |}, 8 # 9))]
          = Some (s, evs)
          /\ Spec.last_fps evs = Some avg
          /\ avg == 24 # 10
          /\ (Spec.rounded avg <= 2)%Z
          /\ filter Spec.is_bitrate evs = []).
Proof.
  eexists. split; [reflexivity|]. split.
  - eexists. eexists. eexists.
    split; [vm_compute; reflexivity|].
    split; [vm_compute; reflexivity|].
    split; [vm_compute; reflexivity|].
    intros H. vm_compute in H. discriminate.
  - eexists. eexists. eexists.
    split; [vm_compute; reflexivity|].
    split; [vm_compute; reflexivity|].
    split; [vm_compute; reflexivity|].
    split; [vm_compute; discriminate|].
    vm_compute. reflexivity.
Qed.

(** C3, as the code has it. For every frame read that crosses the threshold,
    with [k] the accumulated bytes times 8 over 1000: the unit is "Mbps" if
    and only if [k] is strictly above 2000, and then the value is [k / 1000];
    otherwise (2000 included) the unit is "kbps" and the value is [k]. *)
Theorem mbps_strictly_above_2000
  (w : worker) (prev_time : Q) (frame_count total_size : Z)
  (cv_img : image) (current_time : Q) :
  window_ok (fps_history w) ->
  ~ current_time - prev_time == 0 ->
  let avg_fps :=
    Spec.mean (lastn (Deque.maxlen (fps_history w))
                     (Deque.items (fps_history w)
                      ++ [Spec.rate (current_time - prev_time)])) in
  avg_fps <= inject_Z (frame_count + 1) ->
  let k := inject_Z ((total_size + nbytes cv_img) * 8) / 1000 in
  exists value unit s' rest,
    step {| self := w; at_ := InRead prev_time frame_count total_size |}
         (Frame (Some (cv_img, current_time)))
    = Some (s', fps_signal avg_fps :: bitrate_signal value unit
                  :: change_pixmap_signal cv_img :: rest)
    /\ (unit = "Mbps"%string <-> 2000 < k)
    /\ (unit = "Mbps"%string -> value = k / 1000)
    /\ (unit <> "Mbps"%string -> unit = "kbps"%string /\ value = k).
Proof.
  intros Hok Hd avg_fps Hle k.
  destruct (step_frame_bitrate w prev_time frame_count total_size cv_img
                               current_time Hok Hd)
    as (s' & rest & _ & [(_ & Hstep & _)|(Hlt & _)]).
  - destruct (report_bitrate_cases (total_size + nbytes cv_img))
      as [[Hk E]|[Hk E]]; rewrite E in Hstep;
      eexists; eexists; exists s', rest; (split; [exact Hstep|]).
    + split; [tauto|]. split; [reflexivity|]. intros H. now elim H.
    + split.
      * split; [discriminate|]. intros H. exfalso.
        apply (Qlt_irrefl 2000). eapply Qlt_le_trans; eassumption.
      * split; [discriminate|]. intros _. split; reflexivity.
  - exfalso. apply (Qlt_irrefl avg_fps). eapply Qle_lt_trans; eassumption.
Qed.

Lemma mbps_strictly_above_2000_witness :
  let w := {| _run_flag := true; fps_history := Deque.mk [30] 120 |} in
  let avg_fps := Spec.mean (lastn 120 ([30] ++ [Spec.rate ((11 # 10) - 1)])) in
  let k := inject_Z ((5000000 + 250000) * 8) / 1000 in
  exists value unit s' rest,
    step {| self := w; at_ := InRead 1 19 5000000 |}
         (Frame (Some ({| nbytes := 250000 |}, 11 # 10)))
    = Some (s', fps_signal avg_fps :: bitrate_signal value unit
                  :: change_pixmap_signal {| nbytes := 250000 |} :: rest)
    /\ (unit = "Mbps"%string <-> 2000 < k)
    /\ (unit = "Mbps"%string -> value = k / 1000)
    /\ (unit <> "Mbps"%string -> unit = "kbps"%string /\ value = k).
Proof.
  intros w avg_fps k.
  apply (mbps_strictly_above_2000 w 1 19 5000000 {| nbytes := 250000 |} (11 # 10)).
  - split; cbn; lia.
  - intros H. vm_compute in H. discriminate.
  - vm_compute. discriminate.
Defined.

(** C3 as stated fails at the boundary: a first frame of 250000 bytes one
    second after the open makes exactly 2000 kbps, which is at least 2000,
    and the unit emitted is "kbps". *)
Lemma mbps_counterexample :
  exists w s avg value,
    init 120 = Ok w
    /\ run (start w) [Opened (Some (0, 500%Z, 500%Z));
                      Frame (Some ({| nbytes := 250000 |}, 1))]
       = Some (s, [stream_status_signal true; resolution_signal "500x500";
                   fps_signal avg; bitrate_signal value "kbps";
                   change_pixmap_signal {| nbytes := 250000 |}])
    /\ value == Metrics.kbps_of 250000
    /\ 2000 <= value.
Proof.
  eexists. eexists. eexists. eexists.
  split; [reflexivity|].
  split; [vm_compute; reflexivity|].
  split; [vm_compute; reflexivity|].
  vm_compute. discriminate.
Qed.

(** *** Equal timestamps *)

(** C4 on the code. When [cap.read] returns a frame at the very time held
    in [prev_time], line 79 divides by zero: [run] is left by
    [ZeroDivisionError], nothing is emitted for the frame, the history is
    not touched, and no later frame is read. The sample is not skipped. *)
Theorem equal_timestamps_raise
  (w : worker) (t : Q) (frame_count total_size : Z) (cv_img : image) :
  step {| self := w; at_ := InRead t frame_count total_size |}
       (Frame (Some (cv_img, t)))
  = Some ({| self := w; at_ := Raised ZeroDivisionError |}, [])
  /\ forall r, step {| self := w; at_ := Raised ZeroDivisionError |} (Frame r) = None.
Proof.
  split; [|reflexivity].
  cbn [step at_ self on_read]. unfold Metrics.update_fps.
  rewrite py_div_zero; [reflexivity|]. ring.
Qed.

(** *** The first frame of a session *)

(** C7, as the code has it. The timing state is seeded at the open
    ([prev_time] of line 65); the first frame read already emits an FPS
    sample, derived from the interval between the open and that frame, and
    admits its rate into the history. For a fresh worker the value emitted
    is that rate. *)
Theorem first_frame_emits_fps
  (fps_history_length : Z) (w : worker) (t0 : Q) (width height : Z)
  (cv_img : image) (current_time : Q) :
  (0 < fps_history_length)%Z ->
  init fps_history_length = Ok w ->
  ~ current_time - t0 == 0 ->
  exists s avg_fps rest,
    run (start w) [Opened (Some (t0, width, height));
                   Frame (Some (cv_img, current_time))]
    = Some (s, stream_status_signal true
                 :: resolution_signal (str width ++ "x" ++ str height)
                 :: fps_signal avg_fps :: rest)
    /\ avg_fps == 1 / (current_time - t0)
    /\ Deque.items (fps_history (self s)) = [1 / (current_time - t0)].
Proof.
  intros Hn Hinit Hd.
  unfold init, Deque.create in Hinit.
  destruct (Z.ltb_spec fps_history_length 0) as [Hneg|_]; [lia|].
  cbn [rbind] in Hinit. injection Hinit as <-.
  set (m := Z.to_nat fps_history_length).
  set (w := {| _run_flag := true; fps_history := Deque.mk [] m |}).
  assert (Hok : window_ok (fps_history w)) by (split; cbn; lia).
  cbn [run].
  replace (step (start w) (Opened (Some (t0, width, height))))
    with (Some ({| self := w; at_ := InRead t0 0 0 |},
                [stream_status_signal true;
                 resolution_signal (str width ++ "x" ++ str height)]))
    by reflexivity.
  cbv beta iota.
  rewrite (step_frame w t0 0 0 cv_img current_time Hok Hd).
  cbn [fps_history Deque.items Deque.maxlen app w].
  rewrite (lastn_all (m:=m) [Spec.rate (current_time - t0)]) by (cbn; lia).
  destruct (Metrics.update_bitrate 0 0 _ cv_img) as [[fc ts] rate].
  unfold inner_loop. cbn [_run_flag].
  eexists. eexists. eexists. split; [reflexivity|]. split; [|reflexivity].
  unfold Spec.mean, Spec.total, Spec.rate. cbn [fold_left length Z.of_nat].
  change (inject_Z (Z.of_nat 1)) with 1. field. exact Hd.
Qed.

Lemma first_frame_emits_fps_witness :
  exists s avg_fps rest,
    run (start {| _run_flag := true; fps_history := Deque.mk [] 120 |})
        [Opened (Some (10, 1920%Z, 1080%Z));
         Frame (Some ({| nbytes := 6220800 |}, 10 + (1 # 25)))]
    = Some (s, stream_status_signal true
                 :: resolution_signal (str 1920 ++ "x" ++ str 1080)
                 :: fps_signal avg_fps :: rest)
    /\ avg_fps == 1 / (10 + (1 # 25) - 10)
    /\ Deque.items (fps_history (self s)) = [1 / (10 + (1 # 25) - 10)].
Proof.
  apply (first_frame_emits_fps 120 _ 10 1920 1080 {| nbytes := 6220800 |}
                               (10 + (1 # 25))).
  - lia.
  - reflexivity.
  - intros H. vm_compute in H. discriminate.
Defined.

(** C7 as stated fails: one frame after the open, and an FPS value derived
    from an interval has been emitted. *)
Lemma first_frame_counterexample :
  exists w s avg,
    init 120 = Ok w
    /\ run (start w) [Opened (Some (0, 640%Z, 480%Z));
                      Frame (Some ({| nbytes := 921600 |}, 1 # 2))]
       = Some (s, [stream_status_signal true; resolution_signal "640x480";
                   fps_signal avg; change_pixmap_signal {| nbytes := 921600 |}])
    /\ avg == 1 / ((1 # 2) - 0).
Proof.
  eexists. eexists. eexists.
  split; [reflexivity|].
  split; vm_compute; reflexivity.
Qed.

(** *** Sessions *)

Lemma on_read_no_resolution w prev_time frame_count total_size r :
  filter Spec.is_resolution (snd (on_read w prev_time frame_count total_size r)) = [].
Proof.
  destruct r as [[cv_img current_time]|]; [|reflexivity].
  cbn [on_read].
  destruct (Metrics.update_fps _ _ _) as [[h avg_fps]|e]; [|reflexivity].
  pose proof (update_bitrate_signals frame_count total_size avg_fps cv_img) as Hrate.
  destruct (Metrics.update_bitrate _ _ _ _) as [[fc ts] rate]. cbn [snd] in Hrate.
  match goal with
  | |- context [inner_loop ?w ?p ?fc ?ts] =>
      destruct (inner_loop_cases w p fc ts) as [-> | ->]
  end; cbn [snd filter Spec.is_resolution]; rewrite filter_app;
    cbn [filter Spec.is_resolution]; rewrite app_nil_r;
    induction Hrate as [|e rate He _ IH]; try reflexivity;
    cbn [filter]; destruct e; try discriminate; exact IH.
Qed.

(** Whatever happens without a new open emits no resolution. *)
Lemma run_no_resolution ins : forall s s' evs,
  forallb Spec.no_open ins = true ->
  run s ins = Some (s', evs) ->
  filter Spec.is_resolution evs = [].
Proof.
  induction ins as [|i ins IH]; intros s s' evs Hins Hrun; cbn [run] in Hrun.
  - injection Hrun as _ <-. reflexivity.
  - cbn [forallb] in Hins. apply andb_prop in Hins as [Hi Hins].
    destruct (step s i) as [[s1 evs1]|] eqn:Hstep; [|discriminate].
    destruct (run s1 ins) as [[s2 evs2]|] eqn:Hrest; [|discriminate].
    injection Hrun as _ <-. rewrite filter_app, (IH _ _ _ Hins Hrest), app_nil_r.
    destruct i as [| |r|r]; cbn [step] in Hstep.
    + injection Hstep as _ <-. reflexivity.
    + injection Hstep as _ <-. reflexivity.
    + discriminate Hi.
    + destruct (at_ s); try discriminate. injection Hstep as E.
      apply (f_equal snd) in E. cbn [snd] in E. rewrite <- E.
      apply on_read_no_resolution.
Qed.

(** C9. In a session, that is from a successful open up to the next return
    of an open, whatever the number of frames read: the resolution is
    emitted once, right after the status of the open and before every
    signal of a frame, and the inner loop emits none. *)
Theorem resolution_once_per_session
  (w : worker) (t0 : Q) (width height : Z) (rest : list input)
  (s' : state) (evs : list signal) :
  forallb Spec.no_open rest = true ->
  run {| self := w; at_ := InOpen |} (Opened (Some (t0, width, height)) :: rest)
  = Some (s', evs) ->
  exists evs',
    evs = stream_status_signal true
            :: resolution_signal (str width ++ "x" ++ str height) :: evs'
    /\ filter Spec.is_resolution evs' = []
    /\ length (filter Spec.is_resolution evs) = 1%nat.
Proof.
  intros Hrest Hrun. cbn [run step at_ self on_open] in Hrun.
  destruct (inner_loop_cases w t0 0 0) as [E|E]; rewrite E in Hrun;
    match type of Hrun with
    | match run ?s rest with _ => _ end = _ =>
        destruct (run s rest) as [[s2 evs2]|] eqn:Hinner; [|discriminate]
    end;
    injection Hrun as _ <-;
    pose proof (run_no_resolution rest _ _ _ Hrest Hinner) as Hnone;
    eexists; (split; [reflexivity|]);
    cbn [app filter Spec.is_resolution]; rewrite Hnone; split; reflexivity.
Qed.

Lemma resolution_once_per_session_witness :
  exists s' evs evs',
    run {| self := {| _run_flag := true; fps_history := Deque.mk [] 120 |};
           at_ := InOpen |}
        (Opened (Some (0, 1920%Z, 1080%Z)) :: thousand_frames)
    = Some (s', evs)
    /\ evs = stream_status_signal true
               :: resolution_signal (str 1920 ++ "x" ++ str 1080) :: evs'
    /\ filter Spec.is_resolution evs' = []
    /\ length (filter Spec.is_resolution evs) = 1%nat
    /\ length (filter Spec.is_fps evs) = 1000%nat.
Proof.
  set (s0 := {| self := {| _run_flag := true; fps_history := Deque.mk [] 120 |};
                at_ := InOpen |}).
  set (ins := Opened (Some (0, 1920%Z, 1080%Z)) :: thousand_frames).
  assert (Hfps : option_map (fun p => length (filter Spec.is_fps (snd p)))
                            (run s0 ins) = Some 1000%nat).
  { vm_compute. reflexivity. }
  destruct (run s0 ins) as [[s' evs]|] eqn:Hrun; [|discriminate Hfps].
  destruct (resolution_once_per_session _ 0 1920 1080 thousand_frames s' evs
              eq_refl Hrun) as (evs' & H1 & H2 & H3).
  exists s', evs, evs'. repeat split; try assumption.
  cbn in Hfps. now injection Hfps.
Defined.

(** Only a frame read with success changes the history. *)
Lemma step_keeps_history s i s' evs :
  Spec.no_frame i = true ->
  step s i = Some (s', evs) ->
  fps_history (self s') = fps_history (self s).
Proof.
  intros Hi Hstep. destruct s as [w p].
  destruct i as [| |r|r]; cbn [step at_ self] in Hstep.
  - injection Hstep as <- _. reflexivity.
  - injection Hstep as <- _. unfold on_tick. cbn [at_ self].
    destruct p as [| | [|[|r]] | |]; reflexivity.
  - destruct p; try discriminate. injection Hstep as E.
    apply (f_equal fst) in E. cbn [fst] in E. subst s'.
    destruct r as [[[now width] height]|]; [|reflexivity].
    cbn [on_open]. destruct (inner_loop_cases w now 0 0) as [-> | ->]; reflexivity.
  - destruct p; try discriminate. destruct r as [f|]; [discriminate Hi|].
    injection Hstep as <- _. reflexivity.
Qed.

Lemma run_keeps_history ins : forall s s' evs,
  forallb Spec.no_frame ins = true ->
  run s ins = Some (s', evs) ->
  fps_history (self s') = fps_history (self s).
Proof.
  induction ins as [|i ins IH]; intros s s' evs Hins Hrun; cbn [run] in Hrun.
  - injection Hrun as <- _. reflexivity.
  - cbn [forallb] in Hins. apply andb_prop in Hins as [Hi Hins].
    destruct (step s i) as [[s1 evs1]|] eqn:Hstep; [|discriminate].
    destruct (run s1 ins) as [[s2 evs2]|] eqn:Hrest; [|discriminate].
    injection Hrun as <- _.
    rewrite (IH _ _ _ Hins Hrest). exact (step_keeps_history _ _ _ _ Hi Hstep).
Qed.

(** C10. A session ends on a failed read; opens fail, time passes, and a
    later open succeeds. The history of the worker is the one the earlier
    session left, and the new session starts with the frame count and the
    accumulated bytes at zero. The first average of the new session is
    therefore the mean over the old samples (as far as the bound keeps
    them) and the new rate. *)
Theorem history_survives_reconnect
  (w : worker) (prev_time : Q) (frame_count total_size : Z)
  (gap : list input) (t0 : Q) (width height : Z)
  (s1 : state) (evs1 : list signal) :
  forallb Spec.no_frame gap = true ->
  run {| self := w; at_ := InRead prev_time frame_count total_size |}
      (Frame None :: gap ++ [Opened (Some (t0, width, height))])
  = Some (s1, evs1) ->
  fps_history (self s1) = fps_history w
  /\ (at_ s1 = InRead t0 0 0 \/ at_ s1 = Finished)
  /\ (window_ok (fps_history w) ->
      at_ s1 = InRead t0 0 0 ->
      forall cv_img current_time,
        ~ current_time - t0 == 0 ->
        let window :=
          lastn (Deque.maxlen (fps_history w))
                (Deque.items (fps_history w) ++ [Spec.rate (current_time - t0)]) in
        exists s2 rest,
          step s1 (Frame (Some (cv_img, current_time)))
          = Some (s2, fps_signal (Spec.mean window) :: rest)
          /\ Deque.items (fps_history (self s2)) = window).
Proof.
  intros Hgap Hrun. cbn [run step at_ self on_read] in Hrun.
  rewrite run_app in Hrun.
  destruct (run (outer_loop w) gap) as [[sg evsg]|] eqn:Hg; [|discriminate].
  pose proof (run_keeps_history gap _ _ _ Hgap Hg) as Hhist.
  cbn [outer_loop self] in Hhist.
  cbn [run step] in Hrun. destruct sg as [wg pg]. cbn [at_ self] in Hrun, Hhist.
  destruct pg; try discriminate. cbn [on_open] in Hrun.
  assert (Hs1 : s1 = fst (inner_loop wg t0 0 0)).
  { destruct (inner_loop wg t0 0 0) as [si evsi]. now injection Hrun as <- _. }
  clear Hrun.
  destruct (inner_loop_cases wg t0 0 0) as [E|E]; rewrite E in Hs1; cbn [fst] in Hs1;
    subst s1; cbn [self at_]; (split; [exact Hhist|]); (split; [auto|]).
  - intros Hok _ cv_img current_time Hd.
    rewrite <- Hhist in Hok |- *.
    rewrite (step_frame wg t0 0 0 cv_img current_time Hok Hd).
    destruct (Metrics.update_bitrate 0 0 _ cv_img) as [[fc ts] rate].
    match goal with
    | |- context [inner_loop ?w ?p ?fc ?ts] =>
        destruct (inner_loop_cases w p fc ts) as [-> | ->]
    end; eexists; eexists; split; reflexivity.
  - intros _ Hat. discriminate Hat.
Qed.

Lemma history_survives_reconnect_witness :
  let w := {| _run_flag := true; fps_history := Deque.mk [25; 30] 120 |} in
  exists s1 evs1,
    run {| self := w; at_ := InRead 7 2 4000 |}
        (Frame None :: (Opened None :: repeat Tick 1000)
                    ++ [Opened (Some (9, 640%Z, 480%Z))])
    = Some (s1, evs1)
    /\ fps_history (self s1) = fps_history w
    /\ at_ s1 = InRead 9 0 0
    /\ exists s2 rest,
         step s1 (Frame (Some ({| nbytes := 921600 |}, 9 + (1 # 20))))
         = Some (s2, fps_signal (Spec.mean [25; 30; Spec.rate (9 + (1 # 20) - 9)])
                       :: rest)
         /\ Deque.items (fps_history (self s2))
            = [25; 30; Spec.rate (9 + (1 # 20) - 9)].
Proof.
  intros w.
  set (s0 := {| self := w; at_ := InRead 7 2 4000 |}).
  set (gap := Opened None :: repeat Tick 1000).
  assert (Hat : option_map (fun p => at_ (fst p))
                  (run s0 (Frame None :: gap ++ [Opened (Some (9, 640%Z, 480%Z))]))
                = Some (InRead 9 0 0)).
  { vm_compute. reflexivity. }
  destruct (run s0 (Frame None :: gap ++ [Opened (Some (9, 640%Z, 480%Z))]))
    as [[s1 evs1]|] eqn:Hrun; [|discriminate Hat].
  cbn [option_map fst] in Hat. injection Hat as Hat.
  destruct (history_survives_reconnect w 7 2 4000 gap 9 640 480 s1 evs1
              eq_refl Hrun) as (Hhist & _ & Hnext).
  exists s1, evs1. repeat split; try assumption.
  assert (Hok : window_ok (fps_history w)) by (split; cbn; lia).
  apply (Hnext Hok Hat {| nbytes := 921600 |} (9 + (1 # 20))).
  intros H. vm_compute in H. discriminate.
Defined.

(** *** Stopping during the backoff *)

Lemma sleep_ticks j : forall w r,
  (j < r)%nat ->
  run {| self := w; at_ := InSleep r |} (repeat Tick j)
  = Some ({| self := w; at_ := InSleep (r - j) |}, []).
Proof.
  induction j as [|j IH]; intros w r Hj; cbn [repeat run].
  - now rewrite Nat.sub_0_r.
  - destruct r as [|[|r]]; try lia.
    cbn [step on_tick at_ self]. rewrite IH by lia.
    cbn [app]. do 3 f_equal.
Qed.

Lemma sleep_over w r :
  (0 < r)%nat ->
  run {| self := w; at_ := InSleep r |} (repeat Tick r) = Some (outer_loop w, []).
Proof.
  intros Hr. destruct r as [|r]; [lia|].
  replace (S r) with (r + 1)%nat at 2 by lia.
  rewrite repeat_app, run_app, sleep_ticks by lia.
  replace (S r - r)%nat with 1%nat by lia. reflexivity.
Qed.

Lemma stop_in_sleep w r ins :
  run {| self := w; at_ := InSleep r |} (Stop :: ins)
  = run {| self := {| _run_flag := false; fps_history := fps_history w |};
           at_ := InSleep r |} ins.
Proof.
  cbn [run step]. destruct (run _ ins) as [[s evs]|]; reflexivity.
Qed.

(** C8, as the code has it. The open fails, the worker sleeps, and [stop] is
    called [k] ms into the sleep. The sleep is not interrupted: for every
    [j] short of the [1000 - k] ms that remain the worker is still asleep;
    when they have elapsed [run] returns, with no other open attempted and
    nothing more emitted. So the worker is gone one backoff interval after
    [stop] at the latest, and no sooner than the sleep ends. *)
Theorem stop_waits_for_sleep (w : worker) (k : nat) :
  _run_flag w = true ->
  (k < backoff_ms)%nat ->
  let stopped := {| _run_flag := false; fps_history := fps_history w |} in
  let until_stop := Opened None :: repeat Tick k ++ [Stop] in
  run (start w) (until_stop ++ repeat Tick (backoff_ms - k))
  = Some ({| self := stopped; at_ := Finished |}, [stream_status_signal false])
  /\ forall j,
       (j < backoff_ms - k)%nat ->
       run (start w) (until_stop ++ repeat Tick j)
       = Some ({| self := stopped; at_ := InSleep (backoff_ms - k - j) |},
               [stream_status_signal false]).
Proof.
  intros Hflag Hk stopped until_stop.
  assert (Hprefix : forall ins,
    run (start w) (until_stop ++ ins)
    = match run {| self := stopped; at_ := InSleep (backoff_ms - k) |} ins with
      | Some (s, evs) => Some (s, stream_status_signal false :: evs)
      | None => None
      end).
  { intros ins. unfold until_stop, start, outer_loop. rewrite Hflag.
    cbn [app run]. cbn [step at_ self on_open].
    rewrite <- app_assoc, run_app, sleep_ticks by exact Hk.
    cbn [app]. rewrite stop_in_sleep. fold stopped.
    destruct (run _ ins) as [[s evs]|]; reflexivity. }
  split.
  - rewrite Hprefix, sleep_over by lia.
    unfold outer_loop, stopped. reflexivity.
  - intros j Hj. rewrite Hprefix, sleep_ticks by exact Hj. reflexivity.
Qed.

Lemma stop_waits_for_sleep_witness :
  let w := {| _run_flag := true; fps_history := Deque.mk [] 120 |} in
  let stopped := {| _run_flag := false; fps_history := fps_history w |} in
  let until_stop := Opened None :: repeat Tick 400 ++ [Stop] in
  run (start w) (until_stop ++ repeat Tick (backoff_ms - 400))
  = Some ({| self := stopped; at_ := Finished |}, [stream_status_signal false])
  /\ forall j,
       (j < backoff_ms - 400)%nat ->
       run (start w) (until_stop ++ repeat Tick j)
       = Some ({| self := stopped; at_ := InSleep (backoff_ms - 400 - j) |},
               [stream_status_signal false]).
Proof.
  intros w.
  apply (stop_waits_for_sleep w 400).
  - reflexivity.
  - apply Nat.ltb_lt. reflexivity.
Defined.

(** C8 as stated fails: [stop] right at the start of the sleep, and 999 ms
    later the worker is still inside [msleep]; the wait was not interrupted. *)
Lemma stop_counterexample :
  exists w,
    init 120 = Ok w
    /\ run (start w) (Opened None :: Stop :: repeat Tick 999)
       = Some ({| self := {| _run_flag := false; fps_history := fps_history w |};
                  at_ := InSleep 1 |},
               [stream_status_signal false]).
Proof.
  eexists. split; [reflexivity|]. vm_compute. reflexivity.
Qed.

(** ** The handshake *)

Import Handshake.
Close Scope Q_scope.

Lemma read_writer n c got c' : read n c = (got, c') -> writer c' = writer c.
Proof.
  unfold read. destruct (read_from n (reader c)) as [b r].
  intros E. injection E as _ <-. reflexivity.
Qed.

(** The message loop only reads. *)
Lemma message_loop_writer c : writer (snd (message_loop c)) = writer c.
Proof.
  funelim (message_loop c);
    try match goal with IH : writer (snd (message_loop _)) = _ |- _ => rewrite IH end;
    cbn [snd]; eapply read_writer; eassumption.
Qed.

(** The calls [handle_client] makes on the writer, whatever it reads. *)
Lemma handle_client_writer urandom r :
  writer (snd (handle_client urandom (accept r)))
  = [write (x03 :: urandom 1535); drain; write (fst (read_from 1536 r)); drain].
Proof.
  unfold handle_client, bind, read, call, accept. cbn [reader writer].
  destruct (read_from 1536 r) as [c1 r1]. cbn [reader writer].
  destruct (read_from 1536 r1) as [c2 r2]. cbn [reader writer fst].
  rewrite message_loop_writer. reflexivity.
Qed.






(** * Further properties *)

(** ** The capture worker: invariants and edges *)

Open Scope Q_scope.

Lemma update_fps_append h prev_time current_time h' avg_fps :
  Metrics.update_fps h prev_time current_time = Ok (h', avg_fps) ->
  h' = Deque.append h (1 / (current_time - prev_time)).
Proof.
  unfold Metrics.update_fps, py_div.
  destruct (Qeq_bool (current_time - prev_time) 0); [discriminate|].
  cbn [rbind].
  destruct (Qeq_bool (inject_Z (Z.of_nat (Deque.len _))) 0); [discriminate|].
  cbn [rbind]. intros E. now injection E as <- _.
Qed.

(** The history after the return of [cap.read]. *)
Lemma on_read_history w prev_time frame_count total_size r :
  fps_history (self (fst (on_read w prev_time frame_count total_size r)))
  = match r with
    | Some (_, current_time) =>
        match Metrics.update_fps (fps_history w) prev_time current_time with
        | Ok (h, _) => h
        | Raise _ => fps_history w
        end
    | None => fps_history w
    end.
Proof.
  destruct r as [[cv_img current_time]|]; [|reflexivity]. cbn [on_read].
  destruct (Metrics.update_fps _ _ _) as [[h avg_fps]|e]; [|reflexivity].
  destruct (Metrics.update_bitrate _ _ _ _) as [[fc ts] rate].
  match goal with
  | |- context [inner_loop ?w ?p ?fc ?ts] =>
      destruct (inner_loop_cases w p fc ts) as [-> | ->]
  end; reflexivity.
Qed.

Lemma step_bounded m s i s' evs :
  bounded_by m (fps_history (self s)) ->
  step s i = Some (s', evs) ->
  bounded_by m (fps_history (self s')).
Proof.
  intros Hb Hstep. destruct (Spec.no_frame i) eqn:Hi.
  - now rewrite (step_keeps_history s i s' evs Hi Hstep).
  - destruct i as [| |r|[[cv_img current_time]|]]; try discriminate Hi.
    destruct s as [w p]. cbn [step at_ self] in Hstep, Hb.
    destruct p; try discriminate.
    assert (E : fst (on_read w prev_time frame_count total_size
                             (Some (cv_img, current_time))) = s').
    { now apply (f_equal (option_map fst)) in Hstep; injection Hstep. }
    rewrite <- E, on_read_history.
    destruct (Metrics.update_fps _ _ _) as [[h avg_fps]|e] eqn:Hu; [|exact Hb].
    apply update_fps_append in Hu. subst h. destruct Hb as [Hm Hlen].
    split; [now rewrite append_maxlen|].
    rewrite <- Hm in Hlen |- *.
    exact (append_bounded (fps_history w) (1 / (current_time - prev_time)) Hlen).
Qed.

Lemma run_bounded m ins : forall s s' evs,
  bounded_by m (fps_history (self s)) ->
  run s ins = Some (s', evs) ->
  bounded_by m (fps_history (self s')).
Proof.
  induction ins as [|i ins IH]; intros s s' evs Hb Hrun; cbn [run] in Hrun.
  - now injection Hrun as <- _.
  - destruct (step s i) as [[s1 evs1]|] eqn:Hstep; [|discriminate].
    destruct (run s1 ins) as [[s2 evs2]|] eqn:Hrest; [|discriminate].
    injection Hrun as <- _.
    exact (IH _ _ _ (step_bounded m s i s1 evs1 Hb Hstep) Hrest).
Qed.

(** The history window never holds more samples than the configured history
    length, and its bound never changes: whatever the worker is fed from
    its start on (opens, frames, failures, stops, time). *)
Theorem history_never_exceeds_bound
  (fps_history_length : Z) (w : worker) (ins : list input)
  (s' : state) (evs : list signal) :
  init fps_history_length = Ok w ->
  run (start w) ins = Some (s', evs) ->
  Deque.maxlen (fps_history (self s')) = Z.to_nat fps_history_length
  /\ (length (Deque.items (fps_history (self s'))) <= Z.to_nat fps_history_length)%nat.
Proof.
  intros Hinit Hrun. unfold init, Deque.create in Hinit.
  destruct (fps_history_length <? 0)%Z; [discriminate|].
  cbn [rbind] in Hinit. injection Hinit as <-.
  refine (run_bounded (Z.to_nat fps_history_length) ins _ s' evs _ Hrun).
  split; cbn; [reflexivity|lia].
Qed.

Lemma history_never_exceeds_bound_witness :
  let w := {| _run_flag := true; fps_history := Deque.mk [] 2 |} in
  let ins := [Opened (Some (0, 640%Z, 480%Z));
              Frame (Some ({| nbytes := 10 |}, 1)); Frame (Some ({| nbytes := 10 |}, 2));
              Frame (Some ({| nbytes := 10 |}, 3)); Frame None; Opened None; Stop] in
  exists s' evs,
    run (start w) ins = Some (s', evs)
    /\ Deque.maxlen (fps_history (self s')) = 2%nat
    /\ (length (Deque.items (fps_history (self s'))) <= 2)%nat.
Proof.
  intros w ins.
  assert (Hsome : option_map (fun _ => tt) (run (start w) ins) = Some tt).
  { vm_compute. reflexivity. }
  destruct (run (start w) ins) as [[s' evs]|] eqn:Hrun; [|discriminate Hsome].
  exists s', evs. split; [reflexivity|].
  exact (history_never_exceeds_bound 2 w ins s' evs eq_refl Hrun).
Defined.

(** A history length of zero is accepted by [__init__], and then the first
    frame of the first session ends [run] with [ZeroDivisionError], at
    whatever time the frame arrives: the window stays empty and its mean
    divides by its length. *)
Theorem zero_history_raises
  (w : worker) (t0 : Q) (width height : Z) (cv_img : image) (current_time : Q) :
  init 0 = Ok w ->
  run (start w) [Opened (Some (t0, width, height));
                 Frame (Some (cv_img, current_time))]
  = Some ({| self := w; at_ := Raised ZeroDivisionError |},
          [stream_status_signal true;
           resolution_signal (str width ++ "x" ++ str height)]).
Proof.
  intros Hinit. injection Hinit as <-.
  cbn [run]. 
  replace (step (start _) (Opened (Some (t0, width, height))))
    with (Some ({| self := {| _run_flag := true; fps_history := Deque.mk [] 0 |};
                   at_ := InRead t0 0 0 |},
                [stream_status_signal true;
                 resolution_signal (str width ++ "x" ++ str height)]))
    by reflexivity.
  cbv beta iota. cbn [step at_ self on_read].
  unfold Metrics.update_fps, py_div.
  destruct (Qeq_bool (current_time - t0) 0); reflexivity.
Qed.

Lemma zero_history_raises_witness :
  run (start {| _run_flag := true; fps_history := Deque.mk [] 0 |})
      [Opened (Some (0, 640%Z, 480%Z)); Frame (Some ({| nbytes := 10 |}, 1 # 30))]
  = Some ({| self := {| _run_flag := true; fps_history := Deque.mk [] 0 |};
             at_ := Raised ZeroDivisionError |},
          [stream_status_signal true;
           resolution_signal (str 640 ++ "x" ++ str 480)]).
Proof.
  apply (zero_history_raises _ 0 640 480 {| nbytes := 10 |} (1 # 30)).
  reflexivity.
Defined.

Lemma last_status_app a b :
  last_status (a ++ b)
  = match last_status b with Some v => Some v | None => last_status a end.
Proof.
  induction a as [|e a IH]; cbn [app last_status].
  - now destruct (last_status b).
  - rewrite IH. destruct (last_status b); [reflexivity|].
    destruct (last_status a); reflexivity.
Qed.

(** [stop] during a session takes effect at the return of the read the
    worker is blocked in. The frame in flight is still processed in full:
    its rate enters the history, the average is emitted, the bitrate too
    when the frame count has reached the average, and the frame goes to the
    window; only then the status False is emitted and [run] returns. When
    the read fails instead, the status False is all that is emitted. In both
    cases no further read is made. *)
Theorem stop_ends_session_after_one_read
  (w : worker) (prev_time : Q) (frame_count total_size : Z)
  (cv_img : image) (current_time : Q) :
  window_ok (fps_history w) ->
  ~ current_time - prev_time == 0 ->
  let m := Deque.maxlen (fps_history w) in
  let window :=
    lastn m (Deque.items (fps_history w)
             ++ [Spec.rate (current_time - prev_time)]) in
  let avg_fps := Spec.mean window in
  let s := {| self := w; at_ := InRead prev_time frame_count total_size |} in
  let after_frame :=
    {| self := {| _run_flag := false; fps_history := Deque.mk window m |};
       at_ := Finished |} in
  (exists rate,
     run s [Stop; Frame (Some (cv_img, current_time))]
     = Some (after_frame,
             fps_signal avg_fps
               :: rate ++ [change_pixmap_signal cv_img; stream_status_signal false])
     /\ ((avg_fps <= inject_Z (frame_count + 1)
          /\ rate = [Metrics.report_bitrate (total_size + nbytes cv_img)])
         \/ (inject_Z (frame_count + 1) < avg_fps /\ rate = [])))
  /\ run s [Stop; Frame None]
     = Some ({| self := {| _run_flag := false; fps_history := fps_history w |};
                at_ := Finished |},
             [stream_status_signal false])
  /\ (forall r, step after_frame (Frame r) = None).
Proof.
  intros Hok Hd m window avg_fps s after_frame.
  split; [|split; reflexivity].
  set (w0 := {| _run_flag := false; fps_history := fps_history w |}).
  assert (Hrun : run s [Stop; Frame (Some (cv_img, current_time))]
                 = match step {| self := w0;
                                 at_ := InRead prev_time frame_count total_size |}
                              (Frame (Some (cv_img, current_time))) with
                   | Some (s1, evs1) => Some (s1, evs1 ++ [])
                   | None => None
                   end).
  { cbn [run]. unfold s. cbn [step at_ self on_stop app]. fold w0.
    destruct (on_read w0 _ _ _ _) as [s1 evs1]. reflexivity. }
  rewrite Hrun.
  rewrite (step_frame w0 prev_time frame_count total_size cv_img current_time Hok Hd).
  cbn [fps_history w0]. fold m window avg_fps.
  unfold inner_loop, outer_loop. subst w0. cbn [_run_flag].
  destruct (update_bitrate_cases frame_count total_size avg_fps cv_img)
    as [[Hle ->]|[Hlt ->]].
  - exists [Metrics.report_bitrate (total_size + nbytes cv_img)].
    split; [reflexivity|]. left. split; [exact Hle|reflexivity].
  - exists []. split; [reflexivity|]. right. split; [exact Hlt|reflexivity].
Qed.

Lemma stop_ends_session_after_one_read_witness :
  let w := {| _run_flag := true; fps_history := Deque.mk [30] 120 |} in
  let cv_img := {| nbytes := 250000 |} in
  let window := lastn 120 ([30] ++ [Spec.rate ((11 # 10) - 1)]) in
  let avg_fps := Spec.mean window in
  let s := {| self := w; at_ := InRead 1 19 5000000 |} in
  let after_frame :=
    {| self := {| _run_flag := false; fps_history := Deque.mk window 120 |};
       at_ := Finished |} in
  (exists rate,
     run s [Stop; Frame (Some (cv_img, 11 # 10))]
     = Some (after_frame,
             fps_signal avg_fps
               :: rate ++ [change_pixmap_signal cv_img; stream_status_signal false])
     /\ ((avg_fps <= inject_Z (19 + 1)
          /\ rate = [Metrics.report_bitrate (5000000 + nbytes cv_img)])
         \/ (inject_Z (19 + 1) < avg_fps /\ rate = [])))
  /\ run s [Stop; Frame None]
     = Some ({| self := {| _run_flag := false; fps_history := fps_history w |};
                at_ := Finished |},
             [stream_status_signal false])
  /\ (forall r, step after_frame (Frame r) = None).
Proof.
  intros w cv_img window avg_fps s after_frame.
  apply (stop_ends_session_after_one_read w 1 19 5000000 cv_img (11 # 10)).
  - split; cbn; lia.
  - intros H. vm_compute in H. discriminate.
Defined.

(** After an open that failed the worker attempts no other open for the
    whole backoff of 1000 ms: during it the return of an open is not
    something that can happen; its next attempt comes when exactly 1000 ms
    have elapsed, with nothing emitted in between. *)
Theorem no_open_during_backoff (w : worker) (k : nat) (r : option (Q * Z * Z)) :
  _run_flag w = true ->
  (k < backoff_ms)%nat ->
  run {| self := w; at_ := InOpen |} (Opened None :: repeat Tick k ++ [Opened r])
  = None
  /\ run {| self := w; at_ := InOpen |} (Opened None :: repeat Tick backoff_ms)
     = Some ({| self := w; at_ := InOpen |}, [stream_status_signal false]).
Proof.
  intros Hflag Hk. split.
  - cbn [run step at_ self on_open].
    rewrite run_app, sleep_ticks by exact Hk.
    cbn [run step at_]. destruct (backoff_ms - k)%nat; reflexivity.
  - cbn [run step at_ self on_open].
    rewrite sleep_over by (unfold backoff_ms; lia).
    unfold outer_loop. now rewrite Hflag.
Qed.

Lemma no_open_during_backoff_witness :
  let w := {| _run_flag := true; fps_history := Deque.mk [] 120 |} in
  run {| self := w; at_ := InOpen |}
      (Opened None :: repeat Tick 999 ++ [Opened (Some (1, 640%Z, 480%Z))])
  = None
  /\ run {| self := w; at_ := InOpen |} (Opened None :: repeat Tick backoff_ms)
     = Some ({| self := w; at_ := InOpen |}, [stream_status_signal false]).
Proof.
  intros w.
  apply (no_open_during_backoff w 999 (Some (1, 640%Z, 480%Z))).
  - reflexivity.
  - apply Nat.ltb_lt. reflexivity.
Defined.

(** ** The signals of a run *)

(** What a step can emit: nothing that belongs to a frame, or the signals
    of the frame just read. *)
Lemma step_shape s i s' evs :
  step s i = Some (s', evs) ->
  (filter Spec.is_fps evs = [] /\ filter is_pixmap evs = []
   /\ filter Spec.is_bitrate evs = [])
  \/ (exists cv_img current_time avg_fps rate rest,
        i = Frame (Some (cv_img, current_time))
        /\ evs = fps_signal avg_fps :: rate ++ change_pixmap_signal cv_img :: rest
        /\ (rate = [] \/ exists total_size, rate = [Metrics.report_bitrate total_size])
        /\ (rest = [] \/ rest = [stream_status_signal false])).
Proof.
  intros Hstep. destruct s as [w p].
  destruct i as [| |r|r]; cbn [step at_ self] in Hstep.
  - injection Hstep as _ <-. left. repeat split.
  - injection Hstep as _ <-. left. repeat split.
  - destruct p; try discriminate. left.
    assert (E : snd (on_open w r) = evs).
    { now apply (f_equal (option_map snd)) in Hstep; injection Hstep. }
    rewrite <- E. destruct r as [[[now width] height]|]; [|repeat split].
    cbn [on_open]. destruct (inner_loop_cases w now 0 0) as [-> | ->]; repeat split.
  - destruct p; try discriminate.
    assert (E : snd (on_read w prev_time frame_count total_size r) = evs).
    { now apply (f_equal (option_map snd)) in Hstep; injection Hstep. }
    rewrite <- E. clear E Hstep.
    destruct r as [[cv_img current_time]|]; [|left; repeat split].
    cbn [on_read].
    destruct (Metrics.update_fps _ _ _) as [[h avg_fps]|e]; [|left; repeat split].
    right. exists cv_img, current_time, avg_fps.
    destruct (update_bitrate_cases frame_count total_size avg_fps cv_img)
      as [[_ ->]|[_ ->]];
      match goal with
      | |- context [inner_loop ?w ?p ?fc ?ts] =>
          destruct (inner_loop_cases w p fc ts) as [-> | ->]
      end;
      eexists; eexists; (split; [reflexivity|]); (split; [reflexivity|]);
      split; eauto.
Qed.

Lemma report_bitrate_range total_size :
  exists value unit,
    Metrics.report_bitrate total_size = bitrate_signal value unit
    /\ ((unit = "kbps"%string /\ value <= 2000)
        \/ (unit = "Mbps"%string /\ 2 < value)).
Proof.
  destruct (report_bitrate_cases total_size) as [[Hk ->]|[Hk ->]];
    eexists; eexists; (split; [reflexivity|]); [right|left]; split;
    try reflexivity; try exact Hk.
  apply Qlt_shift_div_l; [reflexivity|exact Hk].
Qed.

(** Every frame shown has had its average emitted just before, and a
    bitrate comes at most once per frame: in any run the FPS signals are as
    many as the frames handed to the window, the bitrate signals are no more,
    and neither are more than the frames read. *)
Theorem signals_per_frame
  (s : state) (ins : list input) (s' : state) (evs : list signal) :
  run s ins = Some (s', evs) ->
  length (filter Spec.is_fps evs) = length (filter is_pixmap evs)
  /\ (length (filter Spec.is_bitrate evs) <= length (filter Spec.is_fps evs))%nat
  /\ (length (filter Spec.is_fps evs) <= length (filter is_frame ins))%nat.
Proof.
  revert s s' evs. induction ins as [|i ins IH]; intros s s' evs Hrun;
    cbn [run] in Hrun.
  - injection Hrun as _ <-. cbn. repeat split; lia.
  - destruct (step s i) as [[s1 evs1]|] eqn:Hstep; [|discriminate].
    destruct (run s1 ins) as [[s2 evs2]|] eqn:Hrest; [|discriminate].
    injection Hrun as _ <-. destruct (IH _ _ _ Hrest) as (H1 & H2 & H3).
    rewrite !filter_app, !length_app. cbn [filter].
    destruct (step_shape s i s1 evs1 Hstep)
      as [(-> & -> & ->)
         |(cv_img & current_time & avg_fps & rate & rest & -> & -> & Hrate & Hrest')].
    + cbn [length]. destruct (is_frame i); cbn [length]; lia.
    + cbn [is_frame filter Spec.is_fps is_pixmap Spec.is_bitrate length].
      rewrite !filter_app, !length_app.
      cbn [filter Spec.is_fps is_pixmap Spec.is_bitrate length].
      destruct Hrate as [-> | [total_size ->]];
        [|destruct (report_bitrate_range total_size) as (v & u & -> & _)];
        destruct Hrest' as [-> | ->]; cbn; lia.
Qed.

Lemma signals_per_frame_witness :
  let s := {| self := {| _run_flag := true; fps_history := Deque.mk [] 120 |};
              at_ := InOpen |} in
  let ins := [Opened (Some (0, 640%Z, 480%Z));
              Frame (Some ({| nbytes := 10 |}, 1 # 2));
              Frame (Some ({| nbytes := 10 |}, 1)); Frame None] in
  exists s' evs,
    run s ins = Some (s', evs)
    /\ length (filter Spec.is_fps evs) = length (filter is_pixmap evs)
    /\ (length (filter Spec.is_bitrate evs) <= length (filter Spec.is_fps evs))%nat
    /\ (length (filter Spec.is_fps evs) <= length (filter is_frame ins))%nat.
Proof.
  intros s ins.
  assert (Hsome : option_map (fun _ => tt) (run s ins) = Some tt).
  { vm_compute. reflexivity. }
  destruct (run s ins) as [[s' evs]|] eqn:Hrun; [|discriminate Hsome].
  exists s', evs. split; [reflexivity|].
  exact (signals_per_frame s ins s' evs Hrun).
Defined.

(** A bitrate is never shown as more than 2000 kbps nor as 2 Mbps or less:
    every bitrate signal of any run has the unit "kbps" with a value of at
    most 2000, or the unit "Mbps" with a value above 2. *)
Theorem bitrate_display_range
  (s : state) (ins : list input) (s' : state) (evs : list signal)
  (value : Q) (unit : string) :
  run s ins = Some (s', evs) ->
  In (bitrate_signal value unit) evs ->
  (unit = "kbps"%string /\ value <= 2000) \/ (unit = "Mbps"%string /\ 2 < value).
Proof.
  revert s s' evs. induction ins as [|i ins IH]; intros s s' evs Hrun Hin;
    cbn [run] in Hrun.
  - injection Hrun as _ <-. destruct Hin.
  - destruct (step s i) as [[s1 evs1]|] eqn:Hstep; [|discriminate].
    destruct (run s1 ins) as [[s2 evs2]|] eqn:Hrest; [|discriminate].
    injection Hrun as _ <-. apply in_app_or in Hin as [Hin|Hin];
      [|exact (IH _ _ _ Hrest Hin)].
    destruct (step_shape s i s1 evs1 Hstep)
      as [(_ & _ & Hnone)
         |(cv_img & current_time & avg_fps & rate & rest & _ & -> & Hrate & Hrest')].
    + exfalso. assert (H : In (bitrate_signal value unit)
                              (filter Spec.is_bitrate evs1)).
      { apply filter_In. split; [exact Hin|reflexivity]. }
      rewrite Hnone in H. destruct H.
    + destruct Hin as [Hin|Hin]; [discriminate|].
      apply in_app_or in Hin as [Hin|[Hin|Hin]]; [|discriminate|].
      * destruct Hrate as [-> | [total_size ->]]; [destruct Hin|].
        destruct (report_bitrate_range total_size) as (v & u & E & Hr).
        rewrite E in Hin. destruct Hin as [Hin|[]].
        injection Hin as <- <-. exact Hr.
      * destruct Hrest' as [-> | ->]; [destruct Hin|].
        destruct Hin as [Hin|[]]. discriminate.
Qed.

Lemma bitrate_display_range_witness :
  let s := {| self := {| _run_flag := true; fps_history := Deque.mk [] 120 |};
              at_ := InOpen |} in
  let ins := [Opened (Some (0, 500%Z, 500%Z));
              Frame (Some ({| nbytes := 250001 |}, 1))] in
  exists s' evs value,
    run s ins = Some (s', evs)
    /\ In (bitrate_signal value "Mbps") evs
    /\ 2 < value.
Proof.
  intros s ins.
  assert (Hin : option_map
                  (fun p => existsb Spec.is_bitrate (snd p)) (run s ins) = Some true).
  { vm_compute. reflexivity. }
  destruct (run s ins) as [[s' evs]|] eqn:Hrun; [|discriminate Hin].
  cbn [option_map snd] in Hin. injection Hin as Hin.
  apply existsb_exists in Hin as (e & He & Hb).
  destruct e as [| | |value unit|]; try discriminate Hb.
  destruct (bitrate_display_range s ins s' evs value unit Hrun He)
    as [[-> Hle]|[-> Hlt]].
  - exfalso.
    assert (Hall : option_map
              (fun p => forallb (fun e => match e with
                                          | bitrate_signal _ u => String.eqb u "Mbps"
                                          | _ => true
                                          end) (snd p)) (run s ins) = Some true).
    { vm_compute. reflexivity. }
    rewrite Hrun in Hall. cbn [option_map snd] in Hall. injection Hall as Hall.
    rewrite forallb_forall in Hall. specialize (Hall _ He). discriminate Hall.
  - exists s', evs, value. repeat split; assumption.
Defined.

(** ** The labels of the window under the signals of the worker *)

Lemma step_status s i s1 evs1 :
  step s i = Some (s1, evs1) ->
  in_session (at_ s1)
  = match last_status evs1 with Some b => b | None => in_session (at_ s) end.
Proof.
  intros Hstep. destruct s as [w p].
  destruct i as [| |r|r]; cbn [step at_ self] in Hstep.
  - injection Hstep as <- <-. reflexivity.
  - injection Hstep as <- <-. unfold on_tick, outer_loop. cbn [at_ self].
    destruct p as [| |[|[|r]]| |]; try reflexivity; destruct (_run_flag w); reflexivity.
  - destruct p; try discriminate.
    assert (E : on_open w r = (s1, evs1)) by congruence. clear Hstep.
    destruct r as [[[now width] height]|]; cbn [on_open] in E.
    + destruct (inner_loop_cases w now 0 0) as [E'|E']; rewrite E' in E;
        injection E as <- <-; reflexivity.
    + injection E as <- <-. reflexivity.
  - destruct p; try discriminate.
    assert (E : on_read w prev_time frame_count total_size r = (s1, evs1))
      by congruence.
    clear Hstep. destruct r as [[cv_img current_time]|]; cbn [on_read] in E.
    + destruct (Metrics.update_fps _ _ _) as [[h avg_fps]|e].
      * destruct (update_bitrate_cases frame_count total_size avg_fps cv_img)
          as [[_ E']|[_ E']]; rewrite E' in E; clear E';
          try (destruct (report_bitrate_cases (total_size + nbytes cv_img))
                 as [[_ E']|[_ E']]; rewrite E' in E; clear E');
          match type of E with
          | context [inner_loop ?w ?p ?fc ?ts] =>
              destruct (inner_loop_cases w p fc ts) as [E'|E']; rewrite E' in E
          end; injection E as <- <-; reflexivity.
      * injection E as <- <-. reflexivity.
    + injection E as <- <-. unfold outer_loop. cbn [at_ last_status].
      destruct (_run_flag w); reflexivity.
Qed.

Lemma run_status ins : forall s s' evs,
  run s ins = Some (s', evs) ->
  in_session (at_ s')
  = match last_status evs with Some b => b | None => in_session (at_ s) end.
Proof.
  induction ins as [|i ins IH]; intros s s' evs Hrun; cbn [run] in Hrun.
  - now injection Hrun as <- <-.
  - destruct (step s i) as [[s1 evs1]|] eqn:Hstep; [|discriminate].
    destruct (run s1 ins) as [[s2 evs2]|] eqn:Hrest; [|discriminate].
    injection Hrun as <- <-.
    rewrite last_status_app, (IH _ _ _ Hrest), (step_status s i s1 evs1 Hstep).
    destruct (last_status evs2); reflexivity.
Qed.

Lemma last_resolution_app a b :
  last_resolution (a ++ b)
  = match last_resolution b with Some v => Some v | None => last_resolution a end.
Proof.
  induction a as [|e a IH]; cbn [app last_resolution].
  - now destruct (last_resolution b).
  - rewrite IH. destruct (last_resolution b); [reflexivity|].
    destruct (last_resolution a); reflexivity.
Qed.

Lemma last_resolution_none evs :
  filter Spec.is_resolution evs = [] -> last_resolution evs = None.
Proof.
  induction evs as [|e evs IH]; [reflexivity|].
  cbn [filter last_resolution]. destruct e; cbn [Spec.is_resolution];
    try discriminate; intros H; now rewrite (IH H).
Qed.

Lemma run_resolution ins : forall s s' evs,
  run s ins = Some (s', evs) ->
  last_resolution evs = option_map shown (last_opened ins).
Proof.
  induction ins as [|i ins IH]; intros s s' evs Hrun; cbn [run] in Hrun.
  - now injection Hrun as _ <-.
  - destruct (step s i) as [[s1 evs1]|] eqn:Hstep; [|discriminate].
    destruct (run s1 ins) as [[s2 evs2]|] eqn:Hrest; [|discriminate].
    injection Hrun as _ <-.
    rewrite last_resolution_app, (IH _ _ _ Hrest). cbn [last_opened].
    destruct (last_opened ins) as [d|]; [reflexivity|]. cbn [option_map].
    destruct (Spec.no_open i) eqn:Hi.
    + rewrite (last_resolution_none evs1).
      * destruct i as [| |r|r]; try reflexivity; discriminate Hi.
      * apply (run_no_resolution [i] s s1 evs1).
        -- cbn [forallb]. now rewrite Hi.
        -- cbn [run]. rewrite Hstep. now rewrite app_nil_r.
    + destruct i as [| |r|r]; try discriminate Hi. destruct s as [w p].
      cbn [step at_ self] in Hstep. destruct p; try discriminate.
      assert (E : on_open w r = (s1, evs1)) by congruence. clear Hstep.
      destruct r as [[[now width] height]|]; cbn [on_open] in E.
      * destruct (inner_loop_cases w now 0 0) as [E'|E']; rewrite E' in E;
          injection E as _ <-; reflexivity.
      * injection E as _ <-. reflexivity.
Qed.

Section Labels.

Variable format_2f : Q -> string.
Variable pixmap : Type.
Variable convert_cv_qt : image -> pixmap.

Let window : Type := MainWindow.t pixmap.
Let deliver : window -> list signal -> window :=
  MainWindow.deliver format_2f convert_cv_qt.

Lemma deliver_app (win : window) a b :
  deliver win (a ++ b) = deliver (deliver win a) b.
Proof. apply fold_left_app. Qed.

Lemma status_after_deliver evs : forall win : window,
  MainWindow.status_label (deliver win evs)
  = match last_status evs with
    | Some true => ("Stream Status: Connected", "color: green;")%string
    | Some false => ("Stream Status: Not Connected", "color: red;")%string
    | None => MainWindow.status_label win
    end.
Proof.
  induction evs as [|e evs IH]; intros win; [reflexivity|].
  unfold deliver, MainWindow.deliver in *. cbn [fold_left last_status].
  rewrite IH. destruct (last_status evs) as [b|]; [reflexivity|].
  destruct e as [| [|] | | |]; reflexivity.
Qed.

Lemma resolution_after_deliver evs : forall win : window,
  MainWindow.resolution_label (deliver win evs)
  = match last_resolution evs with
    | Some r => ("Resolution: " ++ r)%string
    | None => MainWindow.resolution_label win
    end.
Proof.
  induction evs as [|e evs IH]; intros win; [reflexivity|].
  unfold deliver, MainWindow.deliver in *. cbn [fold_left last_resolution].
  rewrite IH. destruct (last_resolution evs) as [r|]; [reflexivity|].
  destruct e; reflexivity.
Qed.

(** The status label follows the worker: after any run from the start of the
    thread, it reads "Connected" in green exactly when the worker is in a
    session, inside [cap.read] or thrown out of it by an exception (no
    status follows an exception), and "Not Connected" in red otherwise. *)
Theorem status_label_tracks_session
  (w : worker) (ins : list input) (s' : state) (evs : list signal)
  (local_ip stream_url : string) :
  run (start w) ins = Some (s', evs) ->
  MainWindow.status_label (deliver (MainWindow.init pixmap local_ip stream_url) evs)
  = if in_session (at_ s')
    then ("Stream Status: Connected", "color: green;")%string
    else ("Stream Status: Not Connected", "color: red;")%string.
Proof.
  intros Hrun. rewrite status_after_deliver, (run_status ins _ _ _ Hrun).
  destruct (last_status evs) as [[|]|]; try reflexivity.
  unfold start, outer_loop. cbn [at_]. destruct (_run_flag w); reflexivity.
Qed.

(** The resolution label shows the size of the last open that succeeded,
    and "0x0" before the first one; a disconnect, a failed open or a stop
    never sets it back. *)
Theorem resolution_label_keeps_last_open
  (s : state) (ins : list input) (s' : state) (evs : list signal)
  (local_ip stream_url : string) :
  run s ins = Some (s', evs) ->
  MainWindow.resolution_label
    (deliver (MainWindow.init pixmap local_ip stream_url) evs)
  = match last_opened ins with
    | Some size => ("Resolution: " ++ shown size)%string
    | None => "Resolution: 0x0"%string
    end.
Proof.
  intros Hrun. rewrite resolution_after_deliver, (run_resolution ins _ _ _ Hrun).
  destruct (last_opened ins); reflexivity.
Qed.

Lemma deliver_keeps_metrics evs : forall win : window,
  filter Spec.is_fps evs = [] ->
  filter is_pixmap evs = [] ->
  filter Spec.is_bitrate evs = [] ->
  MainWindow.fps_label (deliver win evs) = MainWindow.fps_label win
  /\ MainWindow.bitrate_label (deliver win evs) = MainWindow.bitrate_label win
  /\ MainWindow.image_label (deliver win evs) = MainWindow.image_label win.
Proof.
  induction evs as [|e evs IH]; intros win Hf Hp Hb; [repeat split|].
  change (deliver win (e :: evs))
    with (deliver (MainWindow.dispatch format_2f convert_cv_qt win e) evs).
  destruct e; cbn [filter Spec.is_fps is_pixmap Spec.is_bitrate] in Hf, Hp, Hb;
    try discriminate;
    match goal with
    | |- context [deliver ?win' evs] => destruct (IH win' Hf Hp Hb) as (-> & -> & ->)
    end; repeat split.
Qed.

(** Between frames nothing refreshes the metrics: whatever happens that is
    not a frame read with success (the end of a stream, failed opens, a new
    open, stops, time), the FPS label, the bitrate label and the picture
    stay as they were. *)
Theorem metrics_stale_without_frames
  (s : state) (ins : list input) (s' : state) (evs : list signal) (win : window) :
  forallb Spec.no_frame ins = true ->
  run s ins = Some (s', evs) ->
  MainWindow.fps_label (deliver win evs) = MainWindow.fps_label win
  /\ MainWindow.bitrate_label (deliver win evs) = MainWindow.bitrate_label win
  /\ MainWindow.image_label (deliver win evs) = MainWindow.image_label win.
Proof.
  revert s s' evs win. induction ins as [|i ins IH]; intros s s' evs win Hins Hrun;
    cbn [run] in Hrun.
  - injection Hrun as _ <-. repeat split.
  - cbn [forallb] in Hins. apply andb_prop in Hins as [Hi Hins].
    destruct (step s i) as [[s1 evs1]|] eqn:Hstep; [|discriminate].
    destruct (run s1 ins) as [[s2 evs2]|] eqn:Hrest; [|discriminate].
    injection Hrun as _ <-.
    rewrite deliver_app.
    destruct (IH _ _ _ (deliver win evs1) Hins Hrest) as (-> & -> & ->).
    destruct (step_shape s i s1 evs1 Hstep)
      as [(Hf & Hp & Hb)|(cv_img & current_time & _ & _ & _ & -> & _)];
      [|discriminate Hi].
    exact (deliver_keeps_metrics evs1 win Hf Hp Hb).
Qed.

End Labels.

Lemma status_label_tracks_session_witness :
  let w := {| _run_flag := true; fps_history := Deque.mk [] 120 |} in
  let ins := [Opened None; Stop; Tick] in
  exists s' evs,
    run (start w) ins = Some (s', evs)
    /\ MainWindow.status_label
         (MainWindow.deliver plain_format keep_image
            (MainWindow.init image "10.0.0.2"%string "rtmp://10.0.0.2:1935/live/stream"%string) evs)
       = ("Stream Status: Not Connected", "color: red;")%string.
Proof.
  intros w ins.
  destruct (run (start w) ins) as [[s' evs]|] eqn:Hrun; [|discriminate Hrun].
  exists s', evs. split; [reflexivity|].
  rewrite (status_label_tracks_session plain_format image keep_image w ins s' evs
             "10.0.0.2"%string "rtmp://10.0.0.2:1935/live/stream"%string Hrun).
  assert (Hat : in_session (at_ s') = false).
  { vm_compute in Hrun. injection Hrun as <- _. reflexivity. }
  now rewrite Hat.
Defined.

Lemma resolution_label_keeps_last_open_witness :
  let s := start {| _run_flag := true; fps_history := Deque.mk [] 120 |} in
  let ins := [Opened (Some (0, 1280%Z, 720%Z));
              Frame (Some ({| nbytes := 10 |}, 1)); Frame None; Opened None] in
  exists s' evs,
    run s ins = Some (s', evs)
    /\ MainWindow.resolution_label
         (MainWindow.deliver plain_format keep_image
            (MainWindow.init image "10.0.0.2"%string "rtmp://10.0.0.2:1935/live/stream"%string) evs)
       = "Resolution: 1280x720"%string.
Proof.
  intros s ins.
  assert (Hsome : option_map (fun _ => tt) (run s ins) = Some tt).
  { vm_compute. reflexivity. }
  destruct (run s ins) as [[s' evs]|] eqn:Hrun; [|discriminate Hsome].
  exists s', evs. split; [reflexivity|].
  exact (resolution_label_keeps_last_open plain_format image keep_image s ins s' evs
           "10.0.0.2"%string "rtmp://10.0.0.2:1935/live/stream"%string Hrun).
Defined.

Lemma metrics_stale_without_frames_witness :
  let s := {| self := {| _run_flag := true; fps_history := Deque.mk [30] 120 |};
              at_ := InRead 5 3 3000 |} in
  let ins := [Frame None; Opened None; Tick; Stop] in
  let win := MainWindow.update_fps plain_format
               (MainWindow.init image "10.0.0.2"%string "rtmp://10.0.0.2:1935/live/stream"%string)
               30 in
  exists s' evs,
    run s ins = Some (s', evs)
    /\ MainWindow.fps_label (MainWindow.deliver plain_format keep_image win evs)
       = MainWindow.fps_label win
    /\ MainWindow.bitrate_label (MainWindow.deliver plain_format keep_image win evs)
       = MainWindow.bitrate_label win
    /\ MainWindow.image_label (MainWindow.deliver plain_format keep_image win evs)
       = MainWindow.image_label win.
Proof.
  intros s ins win.
  destruct (run s ins) as [[s' evs]|] eqn:Hrun; [|discriminate Hrun].
  exists s', evs. split; [reflexivity|].
  exact (metrics_stale_without_frames plain_format image keep_image s ins s' evs win
           eq_refl Hrun).
Defined.

(** ** The reader and the handshake *)

Close Scope Q_scope.

(** A read takes bytes from the front of the stream, in order, never more
    than asked for, and loses none: what it returns followed by what is left
    is what was there. *)
Theorem read_keeps_the_stream (n : nat) (r : list bytes) :
  fst (read_from n r) ++ concat (snd (read_from n r)) = concat r
  /\ length (fst (read_from n r)) <= n.
Proof.
  induction r as [|c r IH]; [split; [reflexivity|cbn; lia]|].
  destruct c as [|b c]; [exact IH|].
  cbn [read_from fst snd]. remember (b :: c) as d eqn:Hd. clear Hd IH. split.
  - rewrite <- (firstn_skipn n d) at 3. cbn [concat].
    rewrite <- app_assoc. f_equal.
    destruct (skipn n d); reflexivity.
  - apply firstn_le_length.
Qed.

(** A read of at least one byte returns nothing only at the end of the
    stream, and nothing is left then. *)
Theorem read_empty_iff_eof (n : nat) (r : list bytes) :
  0 < n ->
  (fst (read_from n r) = [] <-> concat r = [])
  /\ (fst (read_from n r) = [] -> snd (read_from n r) = []).
Proof.
  intros Hn. induction r as [|c r IH]; [repeat split|].
  destruct c as [|b c]; [exact IH|].
  cbn [read_from fst snd concat]. destruct n as [|n]; [lia|].
  cbn [firstn app]. repeat split; discriminate.
Qed.

Lemma read_empty_iff_eof_witness :
  let r : list bytes := [[]; []] in
  (fst (read_from 1536 r) = [] <-> concat r = [])
  /\ (fst (read_from 1536 r) = [] -> snd (read_from 1536 r) = []).
Proof.
  intros r. apply (read_empty_iff_eof 1536 r). apply Nat.ltb_lt. reflexivity.
Defined.

Lemma read_eof n c c' : 0 < n -> read n c = ([], c') -> reader c' = [].
Proof.
  intros Hn. unfold read.
  pose proof (read_empty_iff_eof n (reader c) Hn) as [_ Heof].
  destruct (read_from n (reader c)) as [got r]. intros E.
  injection E as -> <-. exact (Heof eq_refl).
Qed.

Lemma message_loop_reader c : reader (snd (message_loop c)) = [].
Proof.
  funelim (message_loop c);
    try match goal with IH : reader (snd (message_loop _)) = _ |- _ => exact IH end.
  cbn [snd]. eapply read_eof; [exact Nat.lt_0_1|eassumption].
Qed.




(** ** The start-up code: sizes and locators *)

Import Main.

Lemma lower_char_x c :
  Ascii.eqb (lower_char c) "x" = (Ascii.eqb c "x" || Ascii.eqb c "X")%bool.
Proof. destruct c as [[] [] [] [] [] [] [] []]; reflexivity. Qed.

Lemma occurrences_lower s :
  occurrences "x" (lower s) = occurrences "x" s + occurrences "X" s.
Proof.
  induction s as [|c s IH]; [reflexivity|].
  cbn [lower occurrences]. rewrite IH, lower_char_x.
  destruct (Ascii.eqb c "x") eqn:E1, (Ascii.eqb c "X") eqn:E2; cbn; try lia.
  apply Ascii.eqb_eq in E1, E2. congruence.
Qed.

Lemma split_length sep s : length (split sep s) = S (occurrences sep s).
Proof.
  induction s as [|c s IH]; [reflexivity|]. cbn [split occurrences].
  destruct (Ascii.eqb c sep); cbn [length Nat.add]; [now rewrite IH|].
  destruct (split sep s); cbn in *; lia.
Qed.

Lemma unpack_pair_two int fields size :
  unpack_pair int fields = Ok size -> length fields = 2.
Proof.
  unfold unpack_pair. destruct fields as [|f1 [|f2 [|f3 fields]]]; try discriminate;
    destruct (int f1); try discriminate; destruct (int f2); discriminate || reflexivity.
Qed.

(** A size is taken from the command line only if it has exactly one
    separator, an "x" or an "X": with none or with several, whatever [int]
    makes of the pieces, the default is used and the message is printed. *)
Theorem size_needs_one_separator
  (int : string -> option Z) (size : string) (default : Z * Z) (message : string) :
  occurrences "x" size + occurrences "X" size <> 1 ->
  parse_size int size default message = (default, [message]).
Proof.
  intros Hn. unfold parse_size.
  destruct (unpack_pair int (split "x" (lower size))) as [[width height]|e] eqn:E;
    [|reflexivity].
  apply unpack_pair_two in E. rewrite split_length, occurrences_lower in E. lia.
Qed.

Lemma size_needs_one_separator_witness :
  parse_size (fun _ => Some 7%Z) "1x2x3" (800%Z, 600%Z)
             "Invalid window size format. Using default 800x600."
  = ((800%Z, 600%Z), ["Invalid window size format. Using default 800x600."%string]).
Proof.
  apply (size_needs_one_separator (fun _ => Some 7%Z) "1x2x3").
  vm_compute. discriminate.
Defined.

Lemma lower_append a b : lower (a ++ b) = (lower a ++ lower b)%string.
Proof. induction a as [|c a IH]; [reflexivity|]. cbn. now rewrite IH. Qed.

Lemma split_no_separator sep s : occurrences sep s = 0 -> split sep s = [s].
Proof.
  induction s as [|c s IH]; [reflexivity|]. cbn [split occurrences].
  destruct (Ascii.eqb c sep); [discriminate|]. cbn [Nat.add]. intros H.
  now rewrite (IH H).
Qed.

Lemma split_at_separator sep a b :
  occurrences sep a = 0 ->
  split sep (a ++ String sep b) = a :: split sep b.
Proof.
  induction a as [|c a IH]; cbn [append split occurrences].
  - now rewrite Ascii.eqb_refl.
  - destruct (Ascii.eqb c sep); [discriminate|]. cbn [Nat.add]. intros H.
    now rewrite (IH H).
Qed.

(** Two fields around one "x" or "X" are accepted as they convert, in lower
    case: the size is the pair of the two numbers and nothing is printed. *)
Theorem size_accepted
  (int : string -> option Z) (a b : string) (sep : ascii) (width height : Z)
  (default : Z * Z) (message : string) :
  sep = "x"%char \/ sep = "X"%char ->
  occurrences "x" a + occurrences "X" a = 0 ->
  occurrences "x" b + occurrences "X" b = 0 ->
  int (lower a) = Some width ->
  int (lower b) = Some height ->
  parse_size int (a ++ String sep b) default message = ((width, height), []).
Proof.
  intros Hsep Ha Hb Hw Hh. unfold parse_size.
  rewrite lower_append. cbn [lower].
  replace (lower_char sep) with "x"%char by (destruct Hsep; subst; reflexivity).
  rewrite split_at_separator by (rewrite occurrences_lower; exact Ha).
  rewrite split_no_separator by (rewrite occurrences_lower; exact Hb).
  cbn [unpack_pair]. now rewrite Hw, Hh.
Qed.

Lemma size_accepted_witness :
  parse_size (fun s => if String.eqb s "1920" then Some 1920%Z
                       else if String.eqb s "1080" then Some 1080%Z else None)
             ("1920" ++ String "X" "1080") (800%Z, 600%Z)
             "Invalid window size format. Using default 800x600."
  = ((1920%Z, 1080%Z), []).
Proof.
  apply size_accepted.
  - now right.
  - reflexivity.
  - reflexivity.
  - reflexivity.
  - reflexivity.
Defined.

Lemma append_length a b : String.length (a ++ b) = String.length a + String.length b.
Proof. induction a as [|c a IH]; [reflexivity|]. cbn. now rewrite IH. Qed.

Lemma append_cancel_r t : forall a b, (a ++ t = b ++ t)%string -> a = b.
Proof.
  induction a as [|c a IH]; intros b E.
  - destruct b as [|d b]; [reflexivity|]. exfalso.
    apply (f_equal String.length) in E. cbn in E. rewrite append_length in E. lia.
  - destruct b as [|d b].
    + exfalso. apply (f_equal String.length) in E. cbn in E.
      rewrite append_length in E. lia.
    + cbn in E. injection E as -> E. f_equal. exact (IH b E).
Qed.

(** Without [--stream-url], the locator the viewer opens is the one the
    server prints exactly when [--local-ip] is absent, empty, or the address
    that [get_local_ip] finds: any other [--local-ip] makes the two differ. *)
Theorem viewer_and_server_urls
  (detected_ip : string) (arg_local_ip arg_stream_url : option string)
  (port : Z) (stream_path : string) :
  truthy arg_stream_url = None ->
  viewer_url detected_ip arg_local_ip arg_stream_url port stream_path
  = server_url detected_ip port stream_path
  <-> (truthy arg_local_ip = None \/ truthy arg_local_ip = Some detected_ip).
Proof.
  intros Hurl. unfold viewer_url, server_url, rtmp_url. rewrite Hurl.
  destruct (truthy arg_local_ip) as [ip|]; [|split; auto]. split.
  - intros E. right. f_equal. cbn in E.
    injection E as E. now apply append_cancel_r in E.
  - intros [H|H]; [discriminate|]. now injection H as ->.
Qed.

Lemma viewer_and_server_urls_witness :
  viewer_url "192.168.1.20" (Some "10.0.0.2"%string) None 1935 "/live/stream"
  = server_url "192.168.1.20" 1935 "/live/stream"
  <-> (truthy (Some "10.0.0.2"%string) = None
       \/ truthy (Some "10.0.0.2"%string) = Some "192.168.1.20"%string).
Proof.
  apply (viewer_and_server_urls "192.168.1.20" (Some "10.0.0.2"%string) None
                                1935 "/live/stream").
  reflexivity.
Defined.
